(** * PrettyTextWriter: the pretty-printing Ion text writer

    A shallow embedding of [src/IonPrettyTextWriter.ts].  The writer is a
    JavaScript object mutated in place; here every method is a computation
    in a small state-and-exception monad over the record of the writer's
    fields.  A [throw] keeps the state reached so far, as a JavaScript
    exception keeps the mutations made before it. *)

From Stdlib Require Import ZArith String Ascii List Bool Lia.
Import ListNotations.
Local Open Scope string_scope.
Local Open Scope list_scope.
Local Open Scope Z_scope.

(** ** Vocabulary imported by the source file *)

(** [CharCodes] of [IonText]: the ASCII codes the writer emits. *)
Module CharCodes.
Definition LINE_FEED : ascii := "010"%char.
Definition SPACE : ascii := " "%char.
Definition COMMA : ascii := ","%char.
Definition COLON : ascii := ":"%char.
Definition LEFT_BRACKET : ascii := "["%char.
Definition RIGHT_BRACKET : ascii := "]"%char.
Definition LEFT_PARENTHESIS : ascii := "("%char.
Definition RIGHT_PARENTHESIS : ascii := ")"%char.
Definition LEFT_BRACE : ascii := "{"%char.
Definition RIGHT_BRACE : ascii := "}"%char.
End CharCodes.
Import CharCodes.

(** [IonTypes]: the type tags. *)
Inductive IonType : Type :=
| NULL | BOOL | INT | FLOAT | DECIMAL | TIMESTAMP | SYMBOL | STRING
| CLOB | BLOB | LIST | SEXP | STRUCT.

(** [State] of [IonTextWriter]. *)
Inductive State : Type := VALUE | STRUCT_FIELD.

(** Modelled from the spec: the container frame of the base writer
    ([Context] of [IonTextWriter], not under src/).  A frame has a
    container type ([None] for the top-level frame), a state and the
    [clean] flag.  The source tests [state === State.STRUCT_FIELD] on every
    frame, whatever its type, and the spec's scenarios write scalars at top
    level and in lists, so a frame that is not a STRUCT starts in [VALUE]. *)
Record Context : Type := mkContext {
  state : State;
  clean : bool;
  containerType : option IonType
}.

Definition newContext (myType : option IonType) : Context :=
  {| state := match myType with Some STRUCT => STRUCT_FIELD | _ => VALUE end;
     clean := true;
     containerType := myType |}.

Definition set_state (s : State) (c : Context) : Context :=
  {| state := s; clean := clean c; containerType := containerType c |}.

Definition set_clean (b : bool) (c : Context) : Context :=
  {| state := state c; clean := b; containerType := containerType c |}.

(** A JavaScript number used as the depth threshold: an integer or
    [Infinity] (the constructor's default).  The depth it is compared with
    is an integer, so a threshold that is not one acts as the next integer
    above it. *)
Inductive number : Type := Finite (z : Z) | Infinity.

(** [d < n] *)
Definition ltb_num (d : Z) (n : number) : bool :=
  match n with Finite z => d <? z | Infinity => true end.

(** [n - 1] *)
Definition num_pred (n : number) : number :=
  match n with Finite z => Finite (z - 1) | Infinity => Infinity end.

(** What the source throws: [new Error(msg)], or the [TypeError] of
    JavaScript when a property of [undefined] is read or written. *)
Inductive exn : Type := Error (msg : string) | TypeError.

(** Modelled from the spec: the raw serializers of the base writer
    ([writeSymbolToken] and [_writeNull] of [IonTextWriter], not under
    src/): non-formatting emission of the payload bytes of a symbol token
    and of a typed null. *)
Class RawSerializers : Type := {
  symbolTokenBytes : string -> list ascii;
  nullBytes : IonType -> list ascii
}.

(** ** The writer *)

(** The fields of a [PrettyTextWriter].  [writeable] is the append-only
    byte sink, as the list of the bytes written so far.  [containerContext]
    is the array of frames kept newest first: its head is the JavaScript
    array's last element.  [annotations] are the pending annotations of the
    base writer. *)
Record PrettyTextWriter : Type := mkWriter {
  writeable : list ascii;
  containerContext : list Context;
  annotations : list string;
  indentCount : Z;
  indentSize : Z;
  prettify_depth : number
}.

(** [new PrettyTextWriter(writeable, indentSize, prettify_depth)].
    Modelled from the spec: the base constructor, not under src/, starts
    the stack with the top-level frame, so that [depth()] is [0] and
    [currentContainer] is that frame before any container is opened. *)
Definition newWriter (indentSize : Z) (prettify_depth : number)
  : PrettyTextWriter :=
  {| writeable := [];
     containerContext := [newContext None];
     annotations := [];
     indentCount := 0;
     indentSize := indentSize;
     prettify_depth := prettify_depth |}.

(** The constructor's defaults: [indentSize = 2], [prettify_depth = Infinity]. *)
Definition defaultWriter : PrettyTextWriter := newWriter 2 Infinity.

Definition emit (bs : list ascii) (w : PrettyTextWriter) : PrettyTextWriter :=
  {| writeable := writeable w ++ bs;
     containerContext := containerContext w;
     annotations := annotations w;
     indentCount := indentCount w;
     indentSize := indentSize w;
     prettify_depth := prettify_depth w |}.

Definition set_containerContext (stk : list Context) (w : PrettyTextWriter)
  : PrettyTextWriter :=
  {| writeable := writeable w;
     containerContext := stk;
     annotations := annotations w;
     indentCount := indentCount w;
     indentSize := indentSize w;
     prettify_depth := prettify_depth w |}.

Definition set_annotations (a : list string) (w : PrettyTextWriter)
  : PrettyTextWriter :=
  {| writeable := writeable w;
     containerContext := containerContext w;
     annotations := a;
     indentCount := indentCount w;
     indentSize := indentSize w;
     prettify_depth := prettify_depth w |}.

Definition set_indentCount (n : Z) (w : PrettyTextWriter) : PrettyTextWriter :=
  {| writeable := writeable w;
     containerContext := containerContext w;
     annotations := annotations w;
     indentCount := n;
     indentSize := indentSize w;
     prettify_depth := prettify_depth w |}.

(** ** The monad of the methods *)

Definition M (A : Type) : Type :=
  PrettyTextWriter -> (exn + A) * PrettyTextWriter.

Definition ret {A : Type} (a : A) : M A := fun w => (inr a, w).

Definition bind {A B : Type} (m : M A) (k : A -> M B) : M B :=
  fun w =>
    match m w with
    | (inl e, w') => (inl e, w')
    | (inr a, w') => k a w'
    end.

Definition throw {A : Type} (e : exn) : M A := fun w => (inl e, w).

Definition gets {A : Type} (f : PrettyTextWriter -> A) : M A :=
  fun w => (inr (f w), w).

Definition modify (f : PrettyTextWriter -> PrettyTextWriter) : M unit :=
  fun w => (inr tt, f w).

Definition when (b : bool) (m : M unit) : M unit := if b then m else ret tt.

Declare Scope writer_scope.
Delimit Scope writer_scope with writer.
Notation "x <- m ;; k" := (bind m (fun x => k))
  (at level 61, m at next level, right associativity) : writer_scope.
Notation "m ;; k" := (bind m (fun _ => k))
  (at level 61, right associativity) : writer_scope.
Local Open Scope writer_scope.

(** ** The base writer's members used by the source

    Modelled from the spec: [depth], [currentContainer], [_stepIn] and the
    stack are members of [TextWriter], not under src/; they are the depth,
    current frame, push and pop of the spec's external interface. *)

(** [depth()]: [containerContext.length - 1]. *)
Definition depth_of (stk : list Context) : Z := Z.of_nat (List.length stk) - 1.

Definition depth (w : PrettyTextWriter) : Z := depth_of (containerContext w).

(** [this.currentContainer]: [containerContext[depth()]].  On an empty
    array it is [undefined], and the property access that follows in the
    source throws a [TypeError]. *)
Definition currentContainer : M Context :=
  fun w =>
    match containerContext w with
    | c :: _ => (inr c, w)
    | [] => (inl TypeError, w)
    end.

(** An assignment [this.currentContainer.field = v]. *)
Definition setCurrentContainer (f : Context -> Context) : M unit :=
  fun w =>
    match containerContext w with
    | c :: rest => (inr tt, set_containerContext (f c :: rest) w)
    | [] => (inl TypeError, w)
    end.

(** [this.writeable.writeByte(b)] *)
Definition writeByte (b : ascii) : M unit := modify (emit [b]).

(** [_stepIn(type)]: push a new frame. *)
Definition _stepIn (type : IonType) : M unit :=
  modify (fun w =>
    set_containerContext (newContext (Some type) :: containerContext w) w).

(** [containerContext.pop()] *)
Definition popContext : M (option Context) :=
  fun w =>
    match containerContext w with
    | c :: rest => (inr (Some c), set_containerContext rest w)
    | [] => (inr None, w)
    end.

Definition isSTRUCT (t : option IonType) : bool :=
  match t with Some STRUCT => true | _ => false end.

Definition isSTRUCT_FIELD (s : State) : bool :=
  match s with STRUCT_FIELD => true | VALUE => false end.

Definition isVALUE (s : State) : bool :=
  match s with VALUE => true | STRUCT_FIELD => false end.

Section Writer.
Context {raw : RawSerializers}.

(** Modelled from the spec: [writeAnnotations] of the base writer
    emits each pending annotation as [annotation::] before the value and
    leaves none pending. *)
Definition annotationBytes (a : list string) : list ascii :=
  flat_map (fun s => symbolTokenBytes s ++ [COLON; COLON]) a.

Definition writeAnnotations : M unit :=
  modify (fun w => set_annotations [] (emit (annotationBytes (annotations w)) w)).

(** Modelled from the spec: adding a pending annotation (base writer). *)
Definition addAnnotation (a : string) : M unit :=
  modify (fun w => set_annotations (annotations w ++ [a]) w).

Definition writeSymbolToken (s : string) : M unit :=
  modify (emit (symbolTokenBytes s)).

Definition _writeNull (type : IonType) : M unit :=
  modify (emit (nullBytes type)).

(** *** The methods of [PrettyTextWriter] *)

Definition writePrettyNewLine (incrementValue : Z) : M unit :=
  modify (fun w => set_indentCount (indentCount w + incrementValue) w) ;;
  w <- gets id ;;
  when ((0 <? indentSize w) && ltb_num (depth w) (prettify_depth w))
    (writeByte LINE_FEED).

Definition writePrettyIndent (incrementValue : Z) : M unit :=
  modify (fun w => set_indentCount (indentCount w + incrementValue) w) ;;
  w <- gets id ;;
  when ((0 <? indentSize w) && ltb_num (depth w) (prettify_depth w))
    (modify (emit (repeat SPACE (Z.to_nat (indentCount w * indentSize w))))).

(** [containerType && containerType !== IonTypes.STRUCT] *)
Definition isSequence (t : option IonType) : bool :=
  match t with
  | Some STRUCT => false
  | Some _ => true
  | None => false
  end.

Definition writePrettyValue : M unit :=
  w <- gets id ;;
  if 0 <? depth w then
    c <- currentContainer ;;
    when (isSequence (containerType c)) (writePrettyIndent 0)
  else ret tt.

Definition handleSeparator : M unit :=
  w <- gets id ;;
  c <- currentContainer ;;
  if depth w =? 0 then
    if clean c then setCurrentContainer (set_clean false)
    else writeByte LINE_FEED
  else
    if clean c then setCurrentContainer (set_clean false)
    else
      match containerType c with
      | Some LIST =>
          writeByte COMMA ;;
          when (ltb_num (depth w) (prettify_depth w)) (writePrettyNewLine 0)
      | Some SEXP =>
          writeByte SPACE ;;
          when (ltb_num (depth w) (prettify_depth w)) (writePrettyNewLine 0)
      | _ => ret tt
      end.

Definition writeFieldName (fieldName : string) : M unit :=
  c <- currentContainer ;;
  if negb (isSTRUCT (containerType c)) then
    throw (Error "Cannot write field name outside of a struct")
  else if negb (isSTRUCT_FIELD (state c)) then
    throw (Error "Expecting a struct value")
  else
    when (negb (clean c))
      (writeByte COMMA ;; writePrettyNewLine 0) ;;
    writePrettyIndent 0 ;;
    writeSymbolToken fieldName ;;
    writeByte COLON ;;
    writeByte SPACE ;;
    setCurrentContainer (set_state VALUE).

(** [type] is [None] for [undefined] or [null]. *)
Definition writeNull (type : option IonType) : M unit :=
  let type := match type with Some t => t | None => NULL end in
  handleSeparator ;;
  writePrettyValue ;;
  writeAnnotations ;;
  _writeNull type ;;
  c <- currentContainer ;;
  when (isSTRUCT (containerType c))
    (setCurrentContainer (set_state STRUCT_FIELD)).

Definition stepOut : M unit :=
  popped <- popContext ;;
  match popped with
  | None => throw (Error "Can't step out when not in a container")
  | Some currentContainer =>
      match containerType currentContainer with
      | None => throw (Error "Can't step out when not in a container")
      | Some ty =>
          if isSTRUCT (Some ty) && isVALUE (state currentContainer) then
            throw (Error "Expecting a struct value")
          else
            w <- gets id ;;
            when (ltb_num (depth w) (num_pred (prettify_depth w)))
              (when (negb (clean currentContainer)) (writePrettyNewLine 0) ;;
               writePrettyIndent (-1)) ;;
            match ty with
            | LIST => writeByte RIGHT_BRACKET
            | SEXP => writeByte RIGHT_PARENTHESIS
            | STRUCT => writeByte RIGHT_BRACE
            | _ => throw (Error "Unexpected container type")
            end
      end
  end.

(** [value] is [None] for [null]; [serialize] writes the payload bytes. *)
Definition _serializeValue {T : Type} (type : IonType) (value : option T)
    (serialize : T -> list ascii) : M unit :=
  c <- currentContainer ;;
  if isSTRUCT_FIELD (state c) then
    throw (Error "Expecting a struct field")
  else
    match value with
    | None => writeNull (Some type)
    | Some v =>
        handleSeparator ;;
        writePrettyValue ;;
        writeAnnotations ;;
        modify (emit (serialize v)) ;;
        c <- currentContainer ;;
        when (isSTRUCT (containerType c))
          (setCurrentContainer (set_state STRUCT_FIELD))
    end.

Definition writeContainer (type : IonType) (openingCharacter : ascii)
  : M unit :=
  c <- currentContainer ;;
  when (isSTRUCT (containerType c) && isVALUE (state c))
    (setCurrentContainer (set_state STRUCT_FIELD)) ;;
  handleSeparator ;;
  writePrettyValue ;;
  writeAnnotations ;;
  writeByte openingCharacter ;;
  w <- gets id ;;
  when (ltb_num (depth w) (num_pred (prettify_depth w)))
    (writePrettyNewLine 1) ;;
  _stepIn type.

(** *** Sequences of calls *)

Inductive op : Type :=
| WriteFieldName (fieldName : string)
| WriteNull (type : option IonType)
| SerializeValue {T : Type} (type : IonType) (value : option T)
    (serialize : T -> list ascii)
| WriteContainer (type : IonType) (openingCharacter : ascii)
| StepOut
| AddAnnotation (a : string).

Definition step (o : op) : M unit :=
  match o with
  | WriteFieldName f => writeFieldName f
  | WriteNull t => writeNull t
  | SerializeValue t v s => _serializeValue t v s
  | WriteContainer t c => writeContainer t c
  | StepOut => stepOut
  | AddAnnotation a => addAnnotation a
  end.

(** The calls are made in order; the first one that throws ends the run. *)
Fixpoint run (ops : list op) : M unit :=
  match ops with
  | [] => ret tt
  | o :: rest => step o ;; run rest
  end.

End Writer.

(** ** Concrete raw serializers for the scenarios

    Modelled from the spec: the raw text of tokens belongs to the base
    writer; in the scenarios a symbol token is written as its characters
    and a null as [null] or [null.<type>], the forms of Ion text. *)
Definition typeName (t : IonType) : string :=
  match t with
  | NULL => "null" | BOOL => "bool" | INT => "int" | FLOAT => "float"
  | DECIMAL => "decimal" | TIMESTAMP => "timestamp" | SYMBOL => "symbol"
  | STRING => "string" | CLOB => "clob" | BLOB => "blob" | LIST => "list"
  | SEXP => "sexp" | STRUCT => "struct"
  end.

#[export] Instance plainText : RawSerializers := {|
  symbolTokenBytes := list_ascii_of_string;
  nullBytes t :=
    match t with
    | NULL => list_ascii_of_string "null"
    | _ => list_ascii_of_string ("null." ++ typeName t)%string
    end
|}.

(** Calls of the public API used in the scenarios. *)
Definition writeInt (text : string) : op :=
  SerializeValue INT (Some text) list_ascii_of_string.
Definition openList : op := WriteContainer LIST LEFT_BRACKET.
Definition openSexp : op := WriteContainer SEXP LEFT_PARENTHESIS.
Definition openStruct : op := WriteContainer STRUCT LEFT_BRACE.

(** The outcome of a run and the bytes it has written. *)
Definition outcome (r : (exn + unit) * PrettyTextWriter) : exn + unit := fst r.

Definition written (r : (exn + unit) * PrettyTextWriter) : list ascii :=
  writeable (snd r).

(** A text given line by line. *)
Fixpoint lines (l : list string) : list ascii :=
  match l with
  | [] => []
  | [s] => list_ascii_of_string s
  | s :: rest => list_ascii_of_string s ++ LINE_FEED :: lines rest
  end.

(** ** Closed forms of the emitted bytes *)

Section Bytes.
Context {raw : RawSerializers}.

(** The guard of both indentation helpers. *)
Definition prettyOn (w : PrettyTextWriter) : bool :=
  (0 <? indentSize w) && ltb_num (depth w) (prettify_depth w).

Definition newLineBytes (w : PrettyTextWriter) : list ascii :=
  if prettyOn w then [LINE_FEED] else [].

Definition indentBytes (w : PrettyTextWriter) (n : Z) : list ascii :=
  if prettyOn w then repeat SPACE (Z.to_nat (n * indentSize w)) else [].

Definition separatorBytes (w : PrettyTextWriter) : list ascii :=
  match containerContext w with
  | [] => []
  | c :: _ =>
      if clean c then []
      else if depth w =? 0 then [LINE_FEED]
      else match containerType c with
           | Some LIST => COMMA :: newLineBytes w
           | Some SEXP => SPACE :: newLineBytes w
           | _ => []
           end
  end.

Definition valueIndentBytes (w : PrettyTextWriter) : list ascii :=
  match containerContext w with
  | [] => []
  | c :: _ =>
      if (0 <? depth w) && isSequence (containerType c)
      then indentBytes w (indentCount w) else []
  end.

(** What [handleSeparator; writePrettyValue; writeAnnotations] write. *)
Definition preambleBytes (w : PrettyTextWriter) : list ascii :=
  separatorBytes w ++ valueIndentBytes w ++ annotationBytes (annotations w).

(** A frame after one of its children has been written. *)
Definition afterValue (c : Context) : Context :=
  {| state := if isSTRUCT (containerType c) then STRUCT_FIELD else state c;
     clean := false;
     containerType := containerType c |}.

(** The closing delimiter [stepOut] writes for a container type. *)
Definition closingDelimiter (t : IonType) : option ascii :=
  match t with
  | LIST => Some RIGHT_BRACKET
  | SEXP => Some RIGHT_PARENTHESIS
  | STRUCT => Some RIGHT_BRACE
  | _ => None
  end.

(** What [stepOut] writes before the closing delimiter of the popped
    frame [c], in the writer [w] whose stack has been popped. *)
Definition closingLayoutBytes (c : Context) (w : PrettyTextWriter)
  : list ascii :=
  if ltb_num (depth w) (num_pred (prettify_depth w)) then
    (if clean c then [] else newLineBytes w)
    ++ indentBytes w (indentCount w - 1)
  else [].
End Bytes.

(** ** What the specification says, in its own words *)

Section Specification.
Context {raw : RawSerializers}.

Definition isContainer (c : Context) : bool :=
  match containerType c with Some _ => true | None => false end.

(** The number of open containers whose nesting depth, the depth reached
    on entering them, is below the threshold.  The frame at the head of
    [stk] sits at depth [depth_of stk]; the top-level frame is not a
    container. *)
Fixpoint openShallow (threshold : number) (stk : list Context) : Z :=
  match stk with
  | [] => 0
  | c :: rest =>
      (if isContainer c && ltb_num (depth_of stk) threshold then 1 else 0)
      + openShallow threshold rest
  end.

(** The invariant of the indent counter. *)
Definition counterInv (w : PrettyTextWriter) : Prop :=
  indentCount w = openShallow (prettify_depth w) (containerContext w).

(** The stack of a writer used through its API: container frames over
    the top-level frame. *)
Fixpoint wellNested (stk : list Context) : bool :=
  match stk with
  | [] => false
  | [c] => negb (isContainer c)
  | c :: rest => isContainer c && wellNested rest
  end.

(** The mandatory separator before a value: a newline between top-level
    values, a comma between list elements, a space between s-expression
    elements. *)
Definition compactSeparator (w : PrettyTextWriter) : list ascii :=
  match containerContext w with
  | [] => []
  | c :: _ =>
      if clean c then []
      else if depth w =? 0 then [LINE_FEED]
      else match containerType c with
           | Some LIST => [COMMA]
           | Some SEXP => [SPACE]
           | _ => []
           end
  end.

(** The bytes of a value itself: its annotations and its text, or the
    opening delimiter of a container. *)
Definition payloadBytes (w : PrettyTextWriter) (o : op) : list ascii :=
  match o with
  | WriteFieldName f => symbolTokenBytes f
  | WriteNull t =>
      annotationBytes (annotations w)
      ++ nullBytes match t with Some t => t | None => NULL end
  | SerializeValue t (Some v) ser =>
      annotationBytes (annotations w) ++ ser v
  | SerializeValue t None _ =>
      annotationBytes (annotations w) ++ nullBytes t
  | WriteContainer _ o => annotationBytes (annotations w) ++ [o]
  | StepOut =>
      match containerContext w with
      | c :: _ =>
          match containerType c with
          | Some t =>
              match closingDelimiter t with Some b => [b] | None => [] end
          | None => []
          end
      | [] => []
      end
  | AddAnnotation _ => []
  end.

(** Compact layout: the payload with the mandatory separators only. *)
Definition compactBytes (w : PrettyTextWriter) (o : op) : list ascii :=
  match o with
  | WriteFieldName f =>
      match containerContext w with
      | c :: _ => if clean c then [] else [COMMA]
      | [] => []
      end ++ payloadBytes w o ++ [COLON; SPACE]
  | WriteNull _ | SerializeValue _ _ _ | WriteContainer _ _ =>
      compactSeparator w ++ payloadBytes w o
  | StepOut | AddAnnotation _ => payloadBytes w o
  end.

(** The colon and the space that follow a field name. *)
Definition trailerBytes (o : op) : list ascii :=
  match o with
  | WriteFieldName _ => [COLON; SPACE]
  | _ => []
  end.

Fixpoint compactRun (ops : list op) (w : PrettyTextWriter) : list ascii :=
  match ops with
  | [] => []
  | o :: rest => compactBytes w o ++ compactRun rest (snd (step o w))
  end.

(** Indented layout inside a container at depth [depth w]: every line
    break is followed by [depth w * indentSize w] spaces, one level less
    before a closing delimiter, and an opening delimiter is followed by a
    line break when its children are below the threshold. *)
Definition indentation (levels : Z) (w : PrettyTextWriter) : list ascii :=
  repeat SPACE (Z.to_nat (levels * indentSize w)).

Definition indentedBytes (w : PrettyTextWriter) (o : op) : list ascii :=
  match containerContext w with
  | [] => []
  | c :: _ =>
      match o with
      | WriteFieldName f =>
          (if clean c then [] else [COMMA; LINE_FEED])
          ++ indentation (depth w) w
          ++ payloadBytes w o ++ [COLON; SPACE]
      | WriteNull _ | SerializeValue _ _ _ | WriteContainer _ _ =>
          (if clean c then []
           else match containerType c with
                | Some LIST => [COMMA; LINE_FEED]
                | Some SEXP => [SPACE; LINE_FEED]
                | _ => []
                end)
          ++ (if isSequence (containerType c)
              then indentation (depth w) w else [])
          ++ payloadBytes w o
          ++ match o with
             | WriteContainer _ _ =>
                 if ltb_num (depth w + 1) (prettify_depth w)
                 then [LINE_FEED] else []
             | _ => []
             end
      | StepOut =>
          (if clean c then [] else [LINE_FEED])
          ++ indentation (depth w - 1) w
          ++ payloadBytes w o
      | AddAnnotation _ => []
      end
  end.

(** The line break after an opening delimiter: written when the
    children of the container are below the threshold and an indent size
    is configured. *)
Definition openingLineBreak (w : PrettyTextWriter) : list ascii :=
  if ltb_num (depth w + 1) (prettify_depth w) && (0 <? indentSize w)
  then [LINE_FEED] else [].

Definition afterOpen (w : PrettyTextWriter) (o : op) : list ascii :=
  match o with
  | WriteContainer _ _ => openingLineBreak w
  | _ => []
  end.

(** What lies between the delimiters of a container closed as soon as it
    is opened: the line break after the opening delimiter and the
    indentation of the closing one, at the level of the enclosing
    container. *)
Definition emptyInterior (w : PrettyTextWriter) : list ascii :=
  if ltb_num (depth w + 1) (prettify_depth w) && (0 <? indentSize w)
  then LINE_FEED :: indentation (indentCount w) w else [].

(** The calls that write a value: a null, a scalar or a container. *)
Definition isValueOp (o : op) : bool :=
  match o with
  | WriteNull _ | SerializeValue _ _ _ | WriteContainer _ _ => true
  | _ => false
  end.
End Specification.

(** ** Writing a whole value

    A value of the data format and the calls a user of the writer makes to
    write it: a scalar through the generic serialize path, a typed null,
    and a container as its opening call, its children in order (each field
    of a struct as its name, then its value) and [stepOut]. *)

#[local] Unset Elimination Schemes.
Inductive value : Type :=
| VScalar (type : IonType) (text : list ascii)
| VNull (type : IonType)
| VList (items : list value)
| VSexp (items : list value)
| VStruct (fields : list (string * value)).
#[local] Set Elimination Schemes.

Fixpoint writeValue (v : value) : list op :=
  match v with
  | VScalar t text => [SerializeValue t (Some text) (fun x => x)]
  | VNull t => [WriteNull (Some t)]
  | VList items => openList :: flat_map writeValue items ++ [StepOut]
  | VSexp items => openSexp :: flat_map writeValue items ++ [StepOut]
  | VStruct fields =>
      openStruct
      :: flat_map (fun '(name, x) => WriteFieldName name :: writeValue x)
           fields
      ++ [StepOut]
  end.

(** Induction on a value, with the property known of every child. *)
Section ValueInduction.
Variable P : value -> Prop.
Hypothesis Hscalar : forall t text, P (VScalar t text).
Hypothesis Hnull : forall t, P (VNull t).
Hypothesis Hlist : forall items, Forall P items -> P (VList items).
Hypothesis Hsexp : forall items, Forall P items -> P (VSexp items).
Hypothesis Hstruct :
  forall fields, Forall (fun f => P (snd f)) fields -> P (VStruct fields).

Fixpoint value_induction (v : value) : P v :=
  match v with
  | VScalar t text => Hscalar t text
  | VNull t => Hnull t
  | VList items =>
      Hlist items
        ((fix all (l : list value) : Forall P l :=
            match l with
            | [] => Forall_nil P
            | x :: rest => Forall_cons x (value_induction x) (all rest)
            end) items)
  | VSexp items =>
      Hsexp items
        ((fix all (l : list value) : Forall P l :=
            match l with
            | [] => Forall_nil P
            | x :: rest => Forall_cons x (value_induction x) (all rest)
            end) items)
  | VStruct fields =>
      Hstruct fields
        ((fix all (l : list (string * value))
            : Forall (fun f => P (snd f)) l :=
            match l with
            | [] => Forall_nil _
            | (name, x) :: rest =>
                Forall_cons (name, x) (value_induction x) (all rest)
            end) fields)
  end.
End ValueInduction.

Definition isNil {A : Type} (l : list A) : bool :=
  match l with [] => true | _ :: _ => false end.

Section Render.
Context {raw : RawSerializers}.
Variable size : Z.

(** The line break and the indentation of [level] levels, present when an
    indent size is configured. *)
Definition lineBreak : list ascii :=
  if 0 <? size then [LINE_FEED] else [].

Definition indentOf (level : Z) : list ascii :=
  if 0 <? size then repeat SPACE (Z.to_nat (level * size)) else [].

(** The children of a list or s-expression at [level]: each on its own
    line, the separator at the end of the line before. *)
Fixpoint renderElements (sep : ascii) (one : value -> list ascii)
    (level : Z) (first : bool) (l : list value) : list ascii :=
  match l with
  | [] => []
  | x :: rest =>
      (if first then [] else sep :: lineBreak)
      ++ indentOf level ++ one x
      ++ renderElements sep one level false rest
  end.

Fixpoint renderFields (one : value -> list ascii) (level : Z) (first : bool)
    (l : list (string * value)) : list ascii :=
  match l with
  | [] => []
  | (name, x) :: rest =>
      (if first then [] else COMMA :: lineBreak)
      ++ indentOf level ++ symbolTokenBytes name ++ [COLON; SPACE] ++ one x
      ++ renderFields one level false rest
  end.

(** What lies between the delimiters of a container at [level]. *)
Definition renderBody {A : Type} (children : list A) (body : list ascii)
    (level : Z) : list ascii :=
  lineBreak ++ body
  ++ match children with [] => [] | _ :: _ => lineBreak end
  ++ indentOf level.

(** The text of a value whose first byte is at indentation [level]. *)
Fixpoint render (level : Z) (v : value) : list ascii :=
  match v with
  | VScalar _ text => text
  | VNull t => nullBytes t
  | VList items =>
      LEFT_BRACKET
      :: renderBody items
           (renderElements COMMA (render (level + 1)) (level + 1) true items)
           level
      ++ [RIGHT_BRACKET]
  | VSexp items =>
      LEFT_PARENTHESIS
      :: renderBody items
           (renderElements SPACE (render (level + 1)) (level + 1) true items)
           level
      ++ [RIGHT_PARENTHESIS]
  | VStruct fields =>
      LEFT_BRACE
      :: renderBody fields
           (renderFields (render (level + 1)) (level + 1) true fields)
           level
      ++ [RIGHT_BRACE]
  end.

(** A stream of top-level values: one line feed between two of them. *)
Fixpoint renderStream (first : bool) (l : list value) : list ascii :=
  match l with
  | [] => []
  | x :: rest =>
      (if first then [] else [LINE_FEED]) ++ render 0 x
      ++ renderStream false rest
  end.
End Render.

(** A value written where a value is accepted, on a writer without a depth
    threshold: the run succeeds, writes the separator and indentation of
    the value and then its text at the level of the indent counter, marks
    the current frame, and restores the stack and the counter. *)
Definition valueWritten {raw : RawSerializers} (v : value) : Prop :=
  forall out c rest ann ic isz,
    state c = VALUE ->
    run (writeValue v) (mkWriter out (c :: rest) ann ic isz Infinity)
    = (inr tt,
       mkWriter
         (out ++ preambleBytes (mkWriter out (c :: rest) ann ic isz Infinity)
          ++ render isz ic v)
         (afterValue c :: rest) [] ic isz Infinity).

(** A value written where a value is accepted, whatever the configuration:
    the run succeeds, only appends to the output, marks the current frame,
    and restores the stack and the counter. *)
Definition valueBalanced {raw : RawSerializers} (v : value) : Prop :=
  forall out c rest ann ic isz pd,
    state c = VALUE ->
    exists bs,
      run (writeValue v) (mkWriter out (c :: rest) ann ic isz pd)
      = (inr tt, mkWriter (out ++ bs) (afterValue c :: rest) [] ic isz pd).

(** The text without its line feeds and spaces. *)
Definition strip (l : list ascii) : list ascii :=
  filter (fun a => negb (Ascii.eqb a LINE_FEED || Ascii.eqb a SPACE)) l.

(** The text of a value has the same bytes, white space apart, at every
    indent size and level. *)
Definition sameStripped {raw : RawSerializers} (v : value) : Prop :=
  forall n k, strip (render n k v) = strip (render 0 0 v).

(** A struct with a list and an s-expression, for the instances. *)
Definition sampleDocument : value :=
  VStruct [("a", VList [VScalar INT (lines ["1"]); VNull INT]);
           ("b", VSexp [VScalar SYMBOL (lines ["x"]); VList []])].

(** The calls of a run that open a container, and those that close one. *)
Definition opens (ops : list op) : Z :=
  Z.of_nat (List.length (filter (fun o =>
    match o with WriteContainer _ _ => true | _ => false end) ops)).

Definition closes (ops : list op) : Z :=
  Z.of_nat (List.length (filter (fun o =>
    match o with StepOut => true | _ => false end) ops)).


Local Arguments Z.ltb : simpl never.
Local Arguments Z.eqb : simpl never.
Local Arguments Z.add : simpl never.
Local Arguments Z.sub : simpl never.
Local Arguments Z.mul : simpl never.
Local Arguments Z.to_nat : simpl never.
Local Arguments Z.of_nat : simpl never.
Local Arguments depth_of : simpl never.
Local Arguments ltb_num : simpl never.
Local Arguments num_pred : simpl never.
Local Arguments repeat : simpl never.
Local Arguments annotationBytes : simpl never.

(** Symbolic execution of the monad and of the record updates. *)
Ltac exec :=
  repeat (progress (
    unfold bind, ret, throw, gets, modify, when, id, writeByte, emit,
      set_containerContext, set_annotations, set_indentCount, set_state,
      set_clean, currentContainer, setCurrentContainer, popContext, _stepIn,
      writeAnnotations, addAnnotation, writeSymbolToken, _writeNull,
      newContext, depth, prettyOn;
    cbn beta iota zeta delta
      [writeable containerContext annotations indentCount indentSize
       prettify_depth state clean containerType fst snd
       isSTRUCT isSTRUCT_FIELD isVALUE negb andb])).

Ltac exec_in H :=
  repeat (progress (
    unfold bind, ret, throw, gets, modify, when, id, writeByte, emit,
      set_containerContext, set_annotations, set_indentCount, set_state,
      set_clean, currentContainer, setCurrentContainer, popContext, _stepIn,
      writeAnnotations, addAnnotation, writeSymbolToken, _writeNull,
      newContext, depth, prettyOn in H;
    cbn beta iota zeta delta
      [writeable containerContext annotations indentCount indentSize
       prettify_depth state clean containerType fst snd
       isSTRUCT isSTRUCT_FIELD isVALUE negb andb] in H)).

Ltac out_norm := repeat rewrite <- app_assoc; rewrite ?app_nil_r; cbn [app].

Ltac split_if :=
  match goal with
  | |- context [if ?b then _ else _] => destruct b eqn:?
  end.

Ltac bytes_unfold :=
  unfold preambleBytes, separatorBytes, valueIndentBytes, indentBytes,
    newLineBytes in *.

Ltac crunch :=
  cbn beta iota delta [andb isSequence];
  repeat (split_if; cbn beta iota delta [andb isSequence]);
  out_norm; try reflexivity.

Ltac use_depth :=
  repeat match goal with
         | Hi : indentCount _ = _ |- _ => rewrite Hi
         | Hi : (0 <? _) = true |- _ => rewrite Hi
         | Hi : (_ =? 0) = false |- _ => rewrite Hi
         end.

Ltac layout_norm :=
  exec; bytes_unfold; unfold prettyOn, depth in *;
  repeat match goal with
         | Hp : _ && _ = _ |- _ => rewrite Hp
         end;
  repeat match goal with
         | Hs : containerContext _ = _ :: _ |- _ => rewrite Hs in *
         end.

Lemma depth_of_cons c stk : depth_of (c :: stk) = depth_of stk + 1.
Proof. unfold depth_of. cbn [List.length]. lia. Qed.

Lemma ltb_num_pred d n : ltb_num d (num_pred n) = ltb_num (d + 1) n.
Proof.
  destruct n as [z|]; unfold ltb_num, num_pred; [|reflexivity].
  destruct (Z.ltb_spec d (z - 1)), (Z.ltb_spec (d + 1) z); (reflexivity || lia).
Qed.

Section Equations.
Context {raw : RawSerializers}.

Lemma writePrettyNewLine_eq inc w :
  writePrettyNewLine inc w
  = (inr tt, set_indentCount (indentCount w + inc) (emit (newLineBytes w) w)).
Proof.
  destruct w as [out stk ann ic isz pd].
  unfold writePrettyNewLine, newLineBytes. exec.
  destruct (_ && _); out_norm; reflexivity.
Qed.

Lemma writePrettyIndent_eq inc w :
  writePrettyIndent inc w
  = (inr tt, set_indentCount (indentCount w + inc)
               (emit (indentBytes w (indentCount w + inc)) w)).
Proof.
  destruct w as [out stk ann ic isz pd].
  unfold writePrettyIndent, indentBytes. exec.
  destruct (_ && _); out_norm; reflexivity.
Qed.

Lemma handleSeparator_eq w c rest :
  containerContext w = c :: rest ->
  handleSeparator w
  = (inr tt, set_containerContext (set_clean false c :: rest)
               (emit (separatorBytes w) w)).
Proof.
  destruct w as [out stk ann ic isz pd]; cbn; intros ->.
  destruct c as [st cl ct].
  unfold handleSeparator, separatorBytes. exec.
  destruct (_ =? 0), cl; exec; out_norm; try reflexivity;
    destruct ct as [[]|]; exec; out_norm; try reflexivity;
    destruct (ltb_num _ _) eqn:E; rewrite ?andb_false_r; exec; out_norm;
    try reflexivity.
  all: try rewrite writePrettyNewLine_eq; unfold newLineBytes; exec;
    rewrite E, ?Z.add_0_r, ?andb_true_r, ?andb_false_r;
    try destruct (0 <? isz); out_norm; reflexivity.
Qed.

Lemma writePrettyValue_eq w c rest :
  containerContext w = c :: rest ->
  writePrettyValue w = (inr tt, emit (valueIndentBytes w) w).
Proof.
  destruct w as [out stk ann ic isz pd]; cbn; intros ->.
  destruct c as [st cl ct].
  unfold writePrettyValue, valueIndentBytes. exec.
  destruct (0 <? _); cbn [andb]; exec; out_norm; try reflexivity.
  destruct (isSequence ct); exec; out_norm; try reflexivity.
  rewrite writePrettyIndent_eq. exec. rewrite Z.add_0_r. reflexivity.
Qed.

Lemma writeNull_eq type w c rest :
  containerContext w = c :: rest ->
  writeNull type w
  = (inr tt,
     set_annotations []
       (set_containerContext (afterValue c :: rest)
          (emit (preambleBytes w
                 ++ nullBytes match type with Some t => t | None => NULL end)
             w))).
Proof.
  destruct w as [out stk ann ic isz pd]; cbn; intros ->.
  destruct c as [st cl ct].
  unfold writeNull, afterValue. exec.
  erewrite handleSeparator_eq by reflexivity. exec.
  erewrite writePrettyValue_eq by reflexivity. exec.
  bytes_unfold. exec. rewrite !depth_of_cons.
  destruct (isSTRUCT ct); exec; out_norm; reflexivity.
Qed.

Lemma serializeValue_null_eq {T} type (serialize : T -> list ascii) w c rest :
  containerContext w = c :: rest ->
  state c = VALUE ->
  _serializeValue type None serialize w = writeNull (Some type) w.
Proof.
  destruct w as [out stk ann ic isz pd]; cbn; intros -> Hst.
  unfold _serializeValue. exec. rewrite Hst. reflexivity.
Qed.

Lemma serializeValue_eq {T} type (v : T) serialize w c rest :
  containerContext w = c :: rest ->
  state c = VALUE ->
  _serializeValue type (Some v) serialize w
  = (inr tt,
     set_annotations []
       (set_containerContext (afterValue c :: rest)
          (emit (preambleBytes w ++ serialize v) w))).
Proof.
  destruct w as [out stk ann ic isz pd]; cbn; intros -> Hst.
  destruct c as [st cl ct]. cbn in Hst. subst st.
  unfold _serializeValue, afterValue. exec.
  erewrite handleSeparator_eq by reflexivity. exec.
  erewrite writePrettyValue_eq by reflexivity. exec.
  bytes_unfold. exec. rewrite !depth_of_cons.
  destruct (isSTRUCT ct); exec; out_norm; reflexivity.
Qed.

Lemma serializeValue_reject {T} type (value : option T) serialize w c rest :
  containerContext w = c :: rest ->
  state c = STRUCT_FIELD ->
  _serializeValue type value serialize w
  = (inl (Error "Expecting a struct field"), w).
Proof.
  destruct w as [out stk ann ic isz pd]; cbn; intros -> Hst.
  unfold _serializeValue. exec. rewrite Hst. reflexivity.
Qed.

Lemma writeContainer_eq type o w c rest :
  containerContext w = c :: rest ->
  writeContainer type o w
  = (inr tt,
     let enter := ltb_num (depth w) (num_pred (prettify_depth w)) in
     set_indentCount (if enter then indentCount w + 1 else indentCount w)
       (set_annotations []
          (set_containerContext
             (newContext (Some type) :: afterValue c :: rest)
             (emit (preambleBytes w ++ [o]
                    ++ (if enter then newLineBytes w else []))
                w)))).
Proof.
  destruct w as [out stk ann ic isz pd]; cbn; intros ->.
  destruct c as [st cl ct].
  unfold writeContainer, afterValue. exec.
  destruct (isSTRUCT ct) eqn:Hs; destruct st; cbn [andb isVALUE]; exec;
    (erewrite handleSeparator_eq by reflexivity); exec;
    (erewrite writePrettyValue_eq by reflexivity); exec;
    bytes_unfold; exec; rewrite !depth_of_cons;
    destruct (ltb_num (depth_of rest + 1) (num_pred pd)) eqn:E; exec;
    rewrite ?writePrettyNewLine_eq; bytes_unfold; exec;
    rewrite ?depth_of_cons; out_norm; reflexivity.
Qed.

Lemma writeFieldName_eq fieldName w c rest :
  containerContext w = c :: rest ->
  containerType c = Some STRUCT ->
  state c = STRUCT_FIELD ->
  writeFieldName fieldName w
  = (inr tt,
     set_containerContext (set_state VALUE c :: rest)
       (emit ((if clean c then [] else COMMA :: newLineBytes w)
              ++ indentBytes w (indentCount w)
              ++ symbolTokenBytes fieldName ++ [COLON; SPACE])
          w)).
Proof.
  destruct w as [out stk ann ic isz pd]; cbn; intros -> Hct Hst.
  destruct c as [st cl ct]. cbn in Hct, Hst. subst st ct.
  unfold writeFieldName. exec. cbn [isSTRUCT isSTRUCT_FIELD negb].
  destruct cl; cbn [negb]; exec;
    rewrite ?writePrettyNewLine_eq; exec;
    rewrite writePrettyIndent_eq; exec;
    bytes_unfold; exec; rewrite ?Z.add_0_r; out_norm; reflexivity.
Qed.

Lemma writeFieldName_reject_type fieldName w c rest :
  containerContext w = c :: rest ->
  containerType c <> Some STRUCT ->
  writeFieldName fieldName w
  = (inl (Error "Cannot write field name outside of a struct"), w).
Proof.
  destruct w as [out stk ann ic isz pd]; cbn; intros -> Hct.
  unfold writeFieldName. exec.
  destruct (containerType c) as [[]|]; cbn [isSTRUCT negb];
    try reflexivity; congruence.
Qed.

Lemma writeFieldName_reject_state fieldName w c rest :
  containerContext w = c :: rest ->
  containerType c = Some STRUCT ->
  state c <> STRUCT_FIELD ->
  writeFieldName fieldName w = (inl (Error "Expecting a struct value"), w).
Proof.
  destruct w as [out stk ann ic isz pd]; cbn; intros -> Hct Hst.
  unfold writeFieldName. exec. rewrite Hct. cbn [isSTRUCT negb].
  destruct (state c); cbn [isSTRUCT_FIELD negb]; try reflexivity; congruence.
Qed.

Lemma stepOut_empty w :
  containerContext w = [] ->
  stepOut w = (inl (Error "Can't step out when not in a container"), w).
Proof.
  destruct w as [out stk ann ic isz pd]; cbn; intros ->.
  unfold stepOut. exec. reflexivity.
Qed.

Lemma stepOut_top w c rest :
  containerContext w = c :: rest ->
  containerType c = None ->
  stepOut w = (inl (Error "Can't step out when not in a container"),
               set_containerContext rest w).
Proof.
  destruct w as [out stk ann ic isz pd]; cbn; intros -> Hct.
  unfold stepOut. exec. rewrite Hct. reflexivity.
Qed.

Lemma stepOut_awaiting w c rest :
  containerContext w = c :: rest ->
  containerType c = Some STRUCT ->
  state c = VALUE ->
  stepOut w = (inl (Error "Expecting a struct value"),
               set_containerContext rest w).
Proof.
  destruct w as [out stk ann ic isz pd]; cbn; intros -> Hct Hst.
  unfold stepOut. exec. rewrite Hct, Hst. reflexivity.
Qed.

Lemma stepOut_eq w c rest ty :
  containerContext w = c :: rest ->
  containerType c = Some ty ->
  isSTRUCT (Some ty) && isVALUE (state c) = false ->
  stepOut w
  = let w0 := set_containerContext rest w in
    let enter := ltb_num (depth w0) (num_pred (prettify_depth w)) in
    let w1 := set_indentCount
                (if enter then indentCount w - 1 else indentCount w)
                (emit (closingLayoutBytes c w0) w0) in
    match closingDelimiter ty with
    | Some b => (inr tt, emit [b] w1)
    | None => (inl (Error "Unexpected container type"), w1)
    end.
Proof.
  destruct w as [out stk ann ic isz pd]; cbn; intros -> Hct Hg.
  destruct c as [st cl ct]. cbn in Hct, Hg. subst ct.
  unfold stepOut, closingLayoutBytes. exec. rewrite Hg. exec.
  destruct cl; exec;
    destruct (ltb_num (depth_of rest) (num_pred pd)) eqn:E; exec;
    rewrite ?writePrettyNewLine_eq; exec;
    rewrite ?writePrettyIndent_eq; exec;
    bytes_unfold; exec; rewrite ?Z.add_0_r;
    replace (ic + -1) with (ic - 1) by lia;
    destruct ty; cbn [closingDelimiter]; exec; out_norm; reflexivity.
Qed.

Lemma step_empty o w w' :
  containerContext w = [] ->
  step o w = (inr tt, w') ->
  exists a, o = AddAnnotation a.
Proof.
  destruct w as [out stk ann ic isz pd]; cbn; intros -> H.
  destruct o; cbn [step] in H; try (eexists; reflexivity); exfalso;
    revert H;
    unfold writeFieldName, writeNull, _serializeValue, writeContainer,
      stepOut, handleSeparator;
    exec; discriminate.
Qed.

(** Inversion of a successful call: the writer it leaves, for each
    method. *)
Lemma step_inv (P : op -> PrettyTextWriter -> PrettyTextWriter -> Prop) :
  (forall f w c rest,
      containerContext w = c :: rest ->
      containerType c = Some STRUCT ->
      state c = STRUCT_FIELD ->
      P (WriteFieldName f) w
        (set_containerContext (set_state VALUE c :: rest)
           (emit ((if clean c then [] else COMMA :: newLineBytes w)
                  ++ indentBytes w (indentCount w)
                  ++ symbolTokenBytes f ++ [COLON; SPACE]) w))) ->
  (forall t w c rest,
      containerContext w = c :: rest ->
      P (WriteNull t) w
        (set_annotations []
           (set_containerContext (afterValue c :: rest)
              (emit (preambleBytes w
                     ++ nullBytes match t with Some t => t | None => NULL end)
                 w)))) ->
  (forall T t (v : T) ser w c rest,
      containerContext w = c :: rest ->
      state c = VALUE ->
      P (SerializeValue t (Some v) ser) w
        (set_annotations []
           (set_containerContext (afterValue c :: rest)
              (emit (preambleBytes w ++ ser v) w)))) ->
  (forall T t (ser : T -> list ascii) w c rest,
      containerContext w = c :: rest ->
      state c = VALUE ->
      P (SerializeValue t None ser) w
        (set_annotations []
           (set_containerContext (afterValue c :: rest)
              (emit (preambleBytes w ++ nullBytes t) w)))) ->
  (forall t o w c rest,
      containerContext w = c :: rest ->
      P (WriteContainer t o) w
        (let enter := ltb_num (depth w) (num_pred (prettify_depth w)) in
         set_indentCount (if enter then indentCount w + 1 else indentCount w)
           (set_annotations []
              (set_containerContext
                 (newContext (Some t) :: afterValue c :: rest)
                 (emit (preambleBytes w ++ [o]
                        ++ (if enter then newLineBytes w else []))
                    w))))) ->
  (forall w c rest ty b,
      containerContext w = c :: rest ->
      containerType c = Some ty ->
      closingDelimiter ty = Some b ->
      isSTRUCT (Some ty) && isVALUE (state c) = false ->
      P StepOut w
        (let w0 := set_containerContext rest w in
         let enter := ltb_num (depth w0) (num_pred (prettify_depth w)) in
         emit [b]
           (set_indentCount
              (if enter then indentCount w - 1 else indentCount w)
              (emit (closingLayoutBytes c w0) w0)))) ->
  (forall a w,
      P (AddAnnotation a) w (set_annotations (annotations w ++ [a]) w)) ->
  forall o w w', step o w = (inr tt, w') -> P o w w'.
Proof.
  intros Hf Hn Hv Hvn Hc Ho Ha o w w' H.
  destruct (containerContext w) as [|c rest] eqn:Hstk.
  { destruct (step_empty _ _ _ Hstk H) as [a ->].
    cbn in H. unfold addAnnotation in H. exec_in H.
    injection H as <-. apply Ha. }
  destruct o as [f|t|T t [v|] ser|t o| |a]; cbn [step] in H.
  - destruct (containerType c) as [[]|] eqn:Hct;
      try (erewrite writeFieldName_reject_type in H
             by (try eassumption; congruence); discriminate).
    destruct (state c) eqn:Hst.
    + erewrite writeFieldName_reject_state in H
        by (try eassumption; congruence). discriminate.
    + erewrite writeFieldName_eq in H by eassumption.
      injection H as <-. now apply Hf.
  - erewrite writeNull_eq in H by eassumption.
    injection H as <-. now apply Hn.
  - destruct (state c) eqn:Hst.
    + erewrite serializeValue_eq in H by eassumption.
      injection H as <-. now apply Hv.
    + erewrite serializeValue_reject in H by eassumption. discriminate.
  - destruct (state c) eqn:Hst.
    + erewrite serializeValue_null_eq, writeNull_eq in H by eassumption.
      injection H as <-. now apply Hvn.
    + erewrite serializeValue_reject in H by eassumption. discriminate.
  - erewrite writeContainer_eq in H by eassumption.
    injection H as <-. now apply Hc.
  - destruct (containerType c) as [ty|] eqn:Hct.
    2:{ erewrite stepOut_top in H by eassumption. discriminate. }
    destruct (isSTRUCT (Some ty) && isVALUE (state c)) eqn:Hg.
    { apply andb_prop in Hg as [Hs Hv'].
      destruct ty; try discriminate Hs.
      destruct (state c) eqn:Hst; try discriminate Hv'.
      erewrite stepOut_awaiting in H by eassumption. discriminate. }
    erewrite stepOut_eq in H by eassumption.
    cbv zeta in H.
    destruct (closingDelimiter ty) as [b|] eqn:Hb; [|discriminate].
    injection H as <-. eapply Ho; eassumption.
  - unfold addAnnotation in H. exec_in H. injection H as <-. apply Ha.
Qed.

End Equations.

(** ** The indent counter *)

Section IndentCounter.
Context {raw : RawSerializers}.

Lemma openShallow_frame threshold c c' rest :
  containerType c' = containerType c ->
  openShallow threshold (c' :: rest) = openShallow threshold (c :: rest).
Proof.
  intros H. cbn [openShallow]. unfold isContainer. rewrite H.
  rewrite !depth_of_cons. reflexivity.
Qed.

Lemma step_config o w w' :
  step o w = (inr tt, w') ->
  indentSize w' = indentSize w /\ prettify_depth w' = prettify_depth w.
Proof.
  revert o w w'.
  apply (step_inv (fun _ w w' =>
    indentSize w' = indentSize w /\ prettify_depth w' = prettify_depth w));
    intros; split; reflexivity.
Qed.

Lemma step_counterInv o w w' :
  step o w = (inr tt, w') -> counterInv w -> counterInv w'.
Proof.
  revert o w w'. unfold counterInv.
  apply (step_inv (fun _ w w' =>
    indentCount w = openShallow (prettify_depth w) (containerContext w) ->
    indentCount w' = openShallow (prettify_depth w') (containerContext w')));
    cbv zeta; intros; exec.
  - rewrite H2, H. now apply openShallow_frame.
  - rewrite H0, H. now apply openShallow_frame.
  - rewrite H1, H. now apply openShallow_frame.
  - rewrite H1, H. now apply openShallow_frame.
  - rewrite H in *. cbn [openShallow] in *.
    cbn [isContainer containerType andb].
    change (isContainer (afterValue c)) with (isContainer c).
    rewrite ltb_num_pred, (depth_of_cons _ (_ :: _)), !depth_of_cons.
    rewrite !depth_of_cons in H0.
    destruct (ltb_num (depth_of rest + 1 + 1) _); lia.
  - rewrite H in *. cbn [openShallow] in H3.
    unfold isContainer in H3. rewrite H0 in H3. cbn [andb] in H3.
    rewrite ltb_num_pred. rewrite depth_of_cons in H3.
    destruct (ltb_num _ _); lia.
  - assumption.
Qed.

Lemma run_cons o ops w w' :
  run (o :: ops) w = (inr tt, w') ->
  exists w1, step o w = (inr tt, w1) /\ run ops w1 = (inr tt, w').
Proof.
  cbn [run]. unfold bind.
  destruct (step o w) as [[e|[]] w1]; [discriminate|].
  intros H. exists w1. split; [reflexivity|assumption].
Qed.

Lemma run_counterInv ops w w' :
  run ops w = (inr tt, w') -> counterInv w -> counterInv w'.
Proof.
  revert w. induction ops as [|o ops IH]; intros w H Hinv.
  - cbn in H. injection H as <-. assumption.
  - apply run_cons in H as (w1 & H1 & H2).
    eapply IH; [eassumption|]. eapply step_counterInv; eassumption.
Qed.

End IndentCounter.

(** ** Layout of the emitted bytes *)

Section Layout.
Context {raw : RawSerializers}.

Lemma ltb_num_mono d1 d2 n :
  d1 <= d2 -> ltb_num d2 n = true -> ltb_num d1 n = true.
Proof.
  destruct n as [z|]; unfold ltb_num; [|reflexivity].
  intros Hle H. apply Z.ltb_lt in H. apply Z.ltb_lt. lia.
Qed.

(** With the guard of the indentation helpers off, a call writes its
    payload and the mandatory separators only. *)
Lemma step_compact o w w' :
  step o w = (inr tt, w') ->
  prettyOn w = false ->
  writeable w' = writeable w ++ compactBytes w o.
Proof.
  revert o w w'.
  apply (step_inv (fun o w w' =>
    prettyOn w = false -> writeable w' = writeable w ++ compactBytes w o));
    cbv zeta; intros.
  - unfold compactBytes, payloadBytes. layout_norm. crunch.
  - unfold compactBytes, payloadBytes, compactSeparator. layout_norm.
    destruct (containerType c) as [[]|]; crunch.
  - unfold compactBytes, payloadBytes, compactSeparator. layout_norm.
    destruct (containerType c) as [[]|]; crunch.
  - unfold compactBytes, payloadBytes, compactSeparator. layout_norm.
    destruct (containerType c) as [[]|]; crunch.
  - unfold compactBytes, payloadBytes, compactSeparator. layout_norm.
    destruct (containerType c) as [[]|]; crunch.
  - unfold compactBytes, payloadBytes, closingLayoutBytes.
    exec. bytes_unfold. unfold prettyOn, depth in *.
    cbn [containerContext indentSize prettify_depth].
    rewrite H, H0, H1 in *. rewrite depth_of_cons in H3.
    rewrite ltb_num_pred.
    destruct (0 <? indentSize w); cbn [andb] in *.
    + rewrite H3. out_norm. reflexivity.
    + destruct (ltb_num _ _), (clean c); out_norm; reflexivity.
  - cbn. now rewrite app_nil_r.
Qed.

(** With the guard on, inside a container, and the counter equal to the
    depth, a call writes the indented layout. *)
Lemma step_indented o w w' :
  step o w = (inr tt, w') ->
  prettyOn w = true ->
  0 < depth w ->
  indentCount w = depth w ->
  writeable w' = writeable w ++ indentedBytes w o.
Proof.
  revert o w w'.
  apply (step_inv (fun o w w' =>
    prettyOn w = true -> 0 < depth w -> indentCount w = depth w ->
    writeable w' = writeable w ++ indentedBytes w o));
    cbv zeta; intros;
    try match goal with
        | Hd : 0 < depth _ |- _ =>
            pose proof Hd as Hpos; apply Z.ltb_lt in Hpos;
            pose proof Hd as Hnz;
            apply Z.lt_neq, not_eq_sym, Z.eqb_neq in Hnz
        end.
  - unfold indentedBytes, payloadBytes, indentation. layout_norm.
    use_depth. crunch.
  - unfold indentedBytes, payloadBytes, indentation. layout_norm.
    use_depth. destruct (containerType c) as [[]|]; crunch.
  - unfold indentedBytes, payloadBytes, indentation. layout_norm.
    use_depth. destruct (containerType c) as [[]|]; crunch.
  - unfold indentedBytes, payloadBytes, indentation. layout_norm.
    use_depth. destruct (containerType c) as [[]|]; crunch.
  - unfold indentedBytes, payloadBytes, indentation. layout_norm.
    use_depth. rewrite ltb_num_pred.
    destruct (containerType c) as [[]|]; crunch.
  - unfold indentedBytes, payloadBytes, indentation, closingLayoutBytes.
    exec. bytes_unfold. unfold prettyOn, depth in *.
    cbn [containerContext indentSize prettify_depth].
    repeat match goal with
           | Hs : _ = _ |- _ => rewrite Hs in *
           end.
    rewrite depth_of_cons in *.
    match goal with
    | Hp : _ && _ = true |- _ => apply andb_prop in Hp as [Hsz Hlt]
    end.
    rewrite ltb_num_pred, Hlt, Hsz. cbn [andb].
    rewrite (ltb_num_mono (depth_of rest) (depth_of rest + 1))
      by (lia || assumption).
    use_depth.
    replace (depth_of rest + 1 - 1) with (depth_of rest) by lia.
    crunch.
  - unfold indentedBytes. cbn.
    destruct (containerContext w); now rewrite app_nil_r.
Qed.

Lemma wellNested_frame c c' rest :
  containerType c' = containerType c ->
  wellNested (c' :: rest) = wellNested (c :: rest).
Proof.
  intros H. cbn [wellNested]. unfold isContainer. now rewrite H.
Qed.

Lemma wellNested_push x y rest :
  isContainer x = true ->
  wellNested (x :: y :: rest) = wellNested (y :: rest).
Proof.
  intros H. change (isContainer x && wellNested (y :: rest)
                    = wellNested (y :: rest)).
  now rewrite H.
Qed.

Lemma step_wellNested o w w' :
  step o w = (inr tt, w') ->
  wellNested (containerContext w) = true ->
  wellNested (containerContext w') = true.
Proof.
  revert o w w'.
  apply (step_inv (fun _ w w' =>
    wellNested (containerContext w) = true ->
    wellNested (containerContext w') = true));
    cbv zeta; intros; exec;
    try (match goal with
         | Hs : containerContext _ = _ :: _ |- _ => rewrite Hs in *
         end).
  - erewrite wellNested_frame; [eassumption|reflexivity].
  - erewrite wellNested_frame; [eassumption|reflexivity].
  - erewrite wellNested_frame; [eassumption|reflexivity].
  - erewrite wellNested_frame; [eassumption|reflexivity].
  - rewrite wellNested_push by reflexivity.
    erewrite wellNested_frame; [eassumption|reflexivity].
  - cbn [wellNested] in H3. unfold isContainer in H3. rewrite H0 in H3.
    destruct rest; [discriminate|]. assumption.
  - assumption.
Qed.

Lemma run_wellNested ops w w' :
  run ops w = (inr tt, w') ->
  wellNested (containerContext w) = true ->
  wellNested (containerContext w') = true.
Proof.
  revert w. induction ops as [|o ops IH]; intros w H Hinv.
  - cbn in H. injection H as <-. assumption.
  - apply run_cons in H as (w1 & H1 & H2).
    eapply IH; [eassumption|]. eapply step_wellNested; eassumption.
Qed.

Lemma run_config ops w w' :
  run ops w = (inr tt, w') ->
  indentSize w' = indentSize w /\ prettify_depth w' = prettify_depth w.
Proof.
  revert w. induction ops as [|o ops IH]; intros w H.
  - cbn in H. injection H as <-. split; reflexivity.
  - apply run_cons in H as (w1 & H1 & H2).
    destruct (IH _ H2) as [-> ->]. now apply step_config in H1.
Qed.

(** In a well-nested stack below the threshold every open container
    counts. *)
Lemma openShallow_below d stk :
  wellNested stk = true ->
  depth_of stk < d ->
  openShallow (Finite d) stk = depth_of stk.
Proof.
  induction stk as [|c rest IH]; [discriminate|].
  intros Hwf Hlt. destruct rest as [|c2 rest].
  - cbn [wellNested] in Hwf. cbn [openShallow].
    destruct (isContainer c); [discriminate|].
    cbn [andb]. unfold depth_of. cbn. reflexivity.
  - assert (Hc : isContainer c = true)
      by (cbn [wellNested] in Hwf; now destruct (isContainer c)).
    rewrite wellNested_push in Hwf by assumption.
    cbn [openShallow] in *. rewrite Hc. cbn [andb].
    rewrite (depth_of_cons c) in *.
    unfold ltb_num at 1.
    destruct (Z.ltb_spec (depth_of (c2 :: rest) + 1) d); [|lia].
    rewrite IH by (assumption || lia). lia.
Qed.

End Layout.

(** ** Grammar checks *)

Section Grammar.
Context {raw : RawSerializers}.

(** C8: [writeFieldName] throws, leaving the writer as it was, when the
    current container is not a STRUCT or is a STRUCT that does not expect
    a field name; on a STRUCT that expects one it succeeds, and whenever
    it succeeds the STRUCT frame is left in state [VALUE]. *)
Theorem writeFieldName_grammar fieldName w c rest :
  containerContext w = c :: rest ->
  (containerType c <> Some STRUCT ->
     writeFieldName fieldName w
     = (inl (Error "Cannot write field name outside of a struct"), w))
  /\ (containerType c = Some STRUCT -> state c <> STRUCT_FIELD ->
       writeFieldName fieldName w
       = (inl (Error "Expecting a struct value"), w))
  /\ (containerType c = Some STRUCT -> state c = STRUCT_FIELD ->
       exists w', writeFieldName fieldName w = (inr tt, w'))
  /\ (forall w', writeFieldName fieldName w = (inr tt, w') ->
       exists c', containerContext w' = c' :: rest
                  /\ containerType c' = Some STRUCT
                  /\ state c' = VALUE).
Proof.
  intros Hstk. repeat split.
  - intros Hct. eapply writeFieldName_reject_type; eassumption.
  - intros Hct Hst. eapply writeFieldName_reject_state; eassumption.
  - intros Hct Hst. eexists. eapply writeFieldName_eq; eassumption.
  - intros w' H.
    destruct (containerType c) as [[]|] eqn:Hct;
      try (erewrite writeFieldName_reject_type in H
             by (try eassumption; congruence); discriminate).
    destruct (state c) eqn:Hst.
    + erewrite writeFieldName_reject_state in H
        by (try eassumption; congruence). discriminate.
    + erewrite writeFieldName_eq in H by eassumption.
      injection H as <-. exec. eexists. repeat split. assumption.
Qed.

(** C10: a [stepOut] that throws has already popped the top frame: with
    the top-level frame on top (no container open), with a STRUCT on top
    that still awaits the value of an announced field, and in every other
    failure, the stack left behind is the old one without its top. *)
Theorem stepOut_failure_pops_frame w c rest :
  containerContext w = c :: rest ->
  (containerType c = None ->
     stepOut w = (inl (Error "Can't step out when not in a container"),
                  set_containerContext rest w))
  /\ (containerType c = Some STRUCT -> state c = VALUE ->
       stepOut w = (inl (Error "Expecting a struct value"),
                    set_containerContext rest w))
  /\ (forall e w', stepOut w = (inl e, w') -> containerContext w' = rest).
Proof.
  intros Hstk. repeat split.
  - intros Hct. eapply stepOut_top; eassumption.
  - intros Hct Hst. eapply stepOut_awaiting; eassumption.
  - intros e w' H.
    destruct (containerType c) as [ty|] eqn:Hct.
    2:{ erewrite stepOut_top in H by eassumption. now injection H as _ <-. }
    destruct (isSTRUCT (Some ty) && isVALUE (state c)) eqn:Hg.
    { apply andb_prop in Hg as [Hs Hv].
      destruct ty; try discriminate Hs.
      destruct (state c) eqn:Hst; try discriminate Hv.
      erewrite stepOut_awaiting in H by eassumption.
      now injection H as _ <-. }
    erewrite stepOut_eq in H by eassumption. cbv zeta in H.
    destruct (closingDelimiter ty); [discriminate|].
    now injection H as _ <-.
Qed.

End Grammar.

(** ** Layout properties *)

Section LayoutClaims.
Context {raw : RawSerializers}.

(** The compact layout of a call is its payload behind at most one
    separator byte; the separator is a line feed only for a value at top
    level. *)
Lemma compactBytes_separator w o :
  exists sep,
    compactBytes w o = sep ++ payloadBytes w o ++ trailerBytes o
    /\ (sep = [] \/ sep = [COMMA] \/ sep = [SPACE]
        \/ (sep = [LINE_FEED] /\ depth w = 0 /\ isValueOp o = true)).
Proof.
  assert (Hsep : compactSeparator w = [] \/ compactSeparator w = [COMMA]
                 \/ compactSeparator w = [SPACE]
                 \/ (compactSeparator w = [LINE_FEED] /\ depth w = 0)).
  { unfold compactSeparator.
    destruct (containerContext w) as [|c rest]; [now left|].
    destruct (clean c); [now left|].
    destruct (Z.eqb_spec (depth w) 0); [now right; right; right|].
    destruct (containerType c) as [[]|]; auto. }
  destruct o as [f|t|T t v ser|t o| |a]; cbn [compactBytes trailerBytes].
  - destruct (containerContext w) as [|c rest];
      [exists []; split; [reflexivity|now left]|].
    destruct (clean c);
      [exists []|exists [COMMA]]; split; auto.
  - exists (compactSeparator w). rewrite app_nil_r. split; [reflexivity|].
    intuition.
  - exists (compactSeparator w). rewrite app_nil_r. split; [reflexivity|].
    intuition.
  - exists (compactSeparator w). rewrite app_nil_r. split; [reflexivity|].
    intuition.
  - exists []. rewrite app_nil_r. split; [reflexivity|now left].
  - exists []. split; [reflexivity|now left].
Qed.

Lemma compact_run_from ops w w' :
  indentSize w = 0 ->
  run ops w = (inr tt, w') ->
  writeable w' = writeable w ++ compactRun ops w.
Proof.
  revert w. induction ops as [|o ops IH]; intros w Hsz H.
  - cbn in H. injection H as <-. cbn. now rewrite app_nil_r.
  - apply run_cons in H as (w1 & H1 & H2).
    cbn [compactRun]. rewrite H1. cbn [snd].
    rewrite (IH w1); [|now rewrite (proj1 (step_config _ _ _ H1))|assumption].
    rewrite (step_compact _ _ _ H1).
    + now rewrite app_assoc.
    + unfold prettyOn. now rewrite Hsz.
Qed.

(** C4, amended: on a writer constructed with [indentSize = 0], the
    output of a run of successful calls is the payload of the calls with
    the mandatory separators only: a line feed between top-level values,
    a comma between list elements and between struct fields, a space
    between s-expression elements, a colon and a space after a field
    name. *)
Theorem compact_output threshold ops w :
  run ops (newWriter 0 threshold) = (inr tt, w) ->
  writeable w = compactRun ops (newWriter 0 threshold)
  /\ (forall w0 o,
        exists sep,
          compactBytes w0 o = sep ++ payloadBytes w0 o ++ trailerBytes o
          /\ (sep = [] \/ sep = [COMMA] \/ sep = [SPACE]
              \/ (sep = [LINE_FEED] /\ depth w0 = 0 /\ isValueOp o = true))).
Proof.
  intros H. split.
  - now rewrite (compact_run_from ops (newWriter 0 threshold) w).
  - apply compactBytes_separator.
Qed.

(** C5: on a writer constructed with a positive indent size and
    [prettify_depth = d > 0], after any run of successful calls, a
    successful call made at depth [>= d] writes its payload behind at most
    one separator byte, a comma or a space, without line feed or
    indentation, and one made at a depth strictly between [0] and [d]
    writes the indented layout, whose indentation is [depth * indentSize]
    spaces. *)
Theorem threshold_degradation n d ops w o w' :
  0 < n ->
  0 < d ->
  run ops (newWriter n (Finite d)) = (inr tt, w) ->
  step o w = (inr tt, w') ->
  (d <= depth w ->
     exists sep,
       writeable w'
       = writeable w ++ sep ++ payloadBytes w o ++ trailerBytes o
       /\ (sep = [] \/ sep = [COMMA] \/ sep = [SPACE]))
  /\ (0 < depth w < d -> writeable w' = writeable w ++ indentedBytes w o).
Proof.
  intros Hn Hd Hrun Hstep.
  destruct (run_config _ _ _ Hrun) as [Hsz Hpd]. cbn in Hsz, Hpd.
  split.
  - intros Hdeep.
    destruct (compactBytes_separator w o) as (sep & Hc & Hs).
    exists sep. split.
    + rewrite <- Hc. apply (step_compact _ _ _ Hstep).
      unfold prettyOn. rewrite Hpd. unfold ltb_num.
      destruct (Z.ltb_spec (depth w) d); [lia|]. apply andb_false_r.
    + destruct Hs as [?|[?|[?|(_ & H0 & _)]]]; auto. lia.
  - intros [Hpos Hlt]. apply (step_indented _ _ _ Hstep).
    + unfold prettyOn. rewrite Hpd, Hsz. unfold ltb_num.
      destruct (Z.ltb_spec 0 n); [|lia].
      destruct (Z.ltb_spec (depth w) d); [reflexivity|lia].
    + assumption.
    + pose proof (run_counterInv _ _ _ Hrun eq_refl) as Hc.
      unfold counterInv in Hc. rewrite Hc, Hpd.
      apply openShallow_below; [|assumption].
      now apply (run_wellNested _ _ _ Hrun).
Qed.

Lemma step_beyond_threshold o w w' :
  step o w = (inr tt, w') ->
  match o with
  | WriteContainer _ _ =>
      ltb_num (depth w') (prettify_depth w) = false ->
      indentCount w' = indentCount w
  | StepOut =>
      ltb_num (depth w) (prettify_depth w) = false ->
      indentCount w' = indentCount w
  | _ => True
  end.
Proof.
  revert o w w'.
  apply (step_inv (fun o w w' =>
    match o with
    | WriteContainer _ _ =>
        ltb_num (depth w') (prettify_depth w) = false ->
        indentCount w' = indentCount w
    | StepOut =>
        ltb_num (depth w) (prettify_depth w) = false ->
        indentCount w' = indentCount w
    | _ => True
    end)); cbv zeta; intros; try exact I.
  - revert H0. exec. rewrite H, ltb_num_pred.
    rewrite (depth_of_cons _ (_ :: _)), !depth_of_cons.
    now intros ->.
  - revert H3. exec. rewrite H, ltb_num_pred, depth_of_cons.
    now intros ->.
Qed.

(** C9: after any run of successful calls on a new writer, [indentCount]
    is the number of open containers whose nesting depth is below the
    threshold; a container entered at or beyond the threshold leaves the
    counter as it is, on entry and on exit; the counter is [0] at
    construction and whenever no container below the threshold is open. *)
Theorem indentCount_invariant n threshold ops w :
  run ops (newWriter n threshold) = (inr tt, w) ->
  indentCount w = openShallow threshold (containerContext w)
  /\ (forall t o w',
        writeContainer t o w = (inr tt, w') ->
        ltb_num (depth w') threshold = false ->
        indentCount w' = indentCount w)
  /\ (forall w',
        stepOut w = (inr tt, w') ->
        ltb_num (depth w) threshold = false ->
        indentCount w' = indentCount w)
  /\ (openShallow threshold (containerContext w) = 0 -> indentCount w = 0)
  /\ indentCount (newWriter n threshold) = 0.
Proof.
  intros Hrun.
  destruct (run_config _ _ _ Hrun) as [_ Hpd]. cbn in Hpd.
  pose proof (run_counterInv _ _ _ Hrun eq_refl) as Hc.
  unfold counterInv in Hc. rewrite Hpd in Hc.
  repeat split.
  - assumption.
  - intros t o w' H.
    pose proof (step_beyond_threshold (WriteContainer t o) w w' H) as Hb.
    cbn in Hb. now rewrite Hpd in Hb.
  - intros w' H.
    pose proof (step_beyond_threshold StepOut w w' H) as Hb.
    cbn in Hb. now rewrite Hpd in Hb.
  - intros H0. now rewrite Hc.
Qed.

Lemma depth_of_single c : depth_of [c] = 0.
Proof. reflexivity. Qed.

Lemma opening_line_break w :
  (if ltb_num (depth w) (num_pred (prettify_depth w))
   then newLineBytes w else [])
  = openingLineBreak w.
Proof.
  unfold newLineBytes, openingLineBreak, prettyOn.
  rewrite ltb_num_pred.
  destruct (ltb_num (depth w + 1) _) eqn:E; [|reflexivity].
  rewrite (ltb_num_mono (depth w) (depth w + 1)) by (lia || assumption).
  now rewrite andb_true_r.
Qed.

(** C2, amended: a container opened and closed at once is written as its
    opening delimiter, then, when its children would be below the
    threshold and an indent size is configured, a line feed and the
    indentation of the enclosing level, then its closing delimiter; no
    separator is written between the delimiters, and with [indentSize = 0]
    or at the threshold the two delimiters are adjacent.  The indent
    counter is back to its value. *)
Theorem empty_container_bytes type o b w c rest :
  containerContext w = c :: rest ->
  closingDelimiter type = Some b ->
  exists w',
    run [WriteContainer type o; StepOut] w = (inr tt, w')
    /\ writeable w'
       = writeable w ++ preambleBytes w ++ [o] ++ emptyInterior w ++ [b]
    /\ indentCount w' = indentCount w
    /\ containerContext w' = afterValue c :: rest.
Proof.
  intros Hstk Hb.
  destruct w as [out stk ann ic isz pd]. cbn in Hstk. subst stk.
  cbn [run step]. unfold bind at 1.
  erewrite writeContainer_eq by reflexivity. exec.
  erewrite stepOut_eq with (ty := type);
    [ | reflexivity | reflexivity | destruct type; reflexivity ].
  rewrite Hb. exec. eexists. split; [reflexivity|].
  unfold closingLayoutBytes, emptyInterior, indentation, newLineBytes,
    indentBytes.
  exec. rewrite !ltb_num_pred, !depth_of_cons.
  destruct (ltb_num (depth_of rest + 1 + 1) pd) eqn:E; cbn [andb].
  - rewrite (ltb_num_mono _ _ _ (Z.le_succ_diag_r _) E).
    replace (ic + 1 - 1) with ic by lia.
    rewrite andb_true_r.
    destruct (0 <? isz); out_norm;
      repeat split; try reflexivity; lia.
  - out_norm. repeat split; reflexivity.
Qed.

(** C3, amended: a field name written into a STRUCT that is not clean is
    preceded by a comma; the comma is followed by a line feed and the
    indentation exactly when an indent size is configured and the depth is
    below the threshold, and by nothing otherwise. *)
Theorem field_separator_bytes fieldName w c rest :
  containerContext w = c :: rest ->
  containerType c = Some STRUCT ->
  state c = STRUCT_FIELD ->
  clean c = false ->
  exists w',
    writeFieldName fieldName w = (inr tt, w')
    /\ writeable w'
       = writeable w ++ [COMMA]
         ++ (if (0 <? indentSize w) && ltb_num (depth w) (prettify_depth w)
             then LINE_FEED :: indentation (indentCount w) w else [])
         ++ symbolTokenBytes fieldName ++ [COLON; SPACE].
Proof.
  intros Hstk Hct Hst Hcl.
  erewrite writeFieldName_eq by eassumption. eexists. split; [reflexivity|].
  rewrite Hcl. unfold indentation. exec. bytes_unfold. exec.
  destruct (_ && _); out_norm; reflexivity.
Qed.

Lemma step_top_level o w w' :
  step o w = (inr tt, w') ->
  forall c,
    containerContext w = [c] ->
    isValueOp o = true ->
    writeable w'
    = writeable w ++ (if clean c then [] else [LINE_FEED])
      ++ payloadBytes w o ++ afterOpen w o
    /\ clean (last (containerContext w') c) = false.
Proof.
  revert o w w'.
  apply (step_inv (fun o w w' =>
    forall c0,
      containerContext w = [c0] ->
      isValueOp o = true ->
      writeable w'
      = writeable w ++ (if clean c0 then [] else [LINE_FEED])
        ++ payloadBytes w o ++ afterOpen w o
      /\ clean (last (containerContext w') c0) = false));
    cbv zeta; intros; try discriminate;
    match goal with
    | Hs : containerContext ?w = ?c :: ?rest,
      Hs' : containerContext ?w = [?c0] |- _ =>
        rewrite Hs' in Hs; injection Hs as <- <-
    end.
  - unfold payloadBytes, afterOpen. layout_norm.
    rewrite depth_of_single. change (0 <? 0) with false.
    change (0 =? 0) with true. split; [crunch|reflexivity].
  - unfold payloadBytes, afterOpen. layout_norm.
    rewrite depth_of_single. change (0 <? 0) with false.
    change (0 =? 0) with true. split; [crunch|reflexivity].
  - unfold payloadBytes, afterOpen. layout_norm.
    rewrite depth_of_single. change (0 <? 0) with false.
    change (0 =? 0) with true. split; [crunch|reflexivity].
  - unfold payloadBytes, afterOpen. rewrite opening_line_break.
    layout_norm.
    rewrite depth_of_single. change (0 <? 0) with false.
    change (0 =? 0) with true. split; [crunch|reflexivity].
Qed.

(** C7: at depth 0 a value (null, scalar or container) written into a
    clean top-level frame is preceded by no separator and leaves the
    frame not clean; written into a top-level frame that is not clean it
    is preceded by exactly one line feed and no comma.  Two scalars [1]
    and [2] written on a new writer give the two texts with one line feed
    between them. *)
Theorem top_level_separator o w c w' :
  containerContext w = [c] ->
  isValueOp o = true ->
  step o w = (inr tt, w') ->
  (writeable w'
   = writeable w ++ (if clean c then [] else [LINE_FEED])
     ++ payloadBytes w o ++ afterOpen w o
   /\ clean (last (containerContext w') c) = false)
  /\ map clean (containerContext defaultWriter) = [true]
  /\ run [writeInt "1"; writeInt "2"] defaultWriter
     = (inr tt,
        set_containerContext [afterValue (newContext None)]
          (emit ["1"%char; LINE_FEED; "2"%char] defaultWriter)).
Proof.
  intros Hstk Hv H. split; [|split].
  - now apply (step_top_level _ _ _ H).
  - reflexivity.
  - reflexivity.
Qed.

End LayoutClaims.

(** ** Scenarios *)

(** C6: on a writer with [indentSize = 2] and no depth threshold, opening a
    LIST, writing the scalars [1] and [2] and closing the LIST succeeds and
    writes the bracket, a line feed, two spaces, [1], a comma, a line feed,
    two spaces, [2], a line feed and the closing bracket. *)
Theorem list_of_two_scalars :
  outcome (run [openList; writeInt "1"; writeInt "2"; StepOut] defaultWriter)
  = inr tt
  /\ written (run [openList; writeInt "1"; writeInt "2"; StepOut] defaultWriter)
     = lines ["["; "  1,"; "  2"; "]"].
Proof. split; vm_compute; reflexivity. Qed.

(** C1: inside a STRUCT that expects a field name, [_serializeValue]
    throws and writes nothing, but [writeNull] and [writeContainer] succeed
    and write the null and the opening delimiter. *)
Theorem value_without_field_name :
  let w := snd (run [openStruct] defaultWriter) in
  run [openStruct] defaultWriter = (inr tt, w)
  /\ (exists rest,
        containerContext w = newContext (Some STRUCT) :: rest)
  /\ _serializeValue INT (Some "1") list_ascii_of_string w
     = (inl (Error "Expecting a struct field"), w)
  /\ outcome (writeNull None w) = inr tt
  /\ written (writeNull None w) = writeable w ++ list_ascii_of_string "null"
  /\ outcome (writeContainer LIST LEFT_BRACKET w) = inr tt
  /\ written (writeContainer LIST LEFT_BRACKET w)
     = writeable w ++ [LEFT_BRACKET; LINE_FEED].
Proof.
  cbv zeta. repeat split; try (vm_compute; reflexivity).
  eexists. vm_compute. reflexivity.
Qed.

(** An empty LIST on the default writer: a line feed lies between the
    brackets. *)
Lemma empty_list_line_break :
  outcome (run [openList; StepOut] defaultWriter) = inr tt
  /\ written (run [openList; StepOut] defaultWriter)
     = [LEFT_BRACKET; LINE_FEED; RIGHT_BRACKET]
  /\ written (run [openList; StepOut] defaultWriter)
     <> [LEFT_BRACKET; RIGHT_BRACKET].
Proof. repeat split; try (vm_compute; reflexivity). vm_compute. discriminate. Qed.

Lemma empty_container_bytes_witness :
  exists w',
    run [openList; StepOut] defaultWriter = (inr tt, w')
    /\ writeable w'
       = writeable defaultWriter ++ preambleBytes defaultWriter
         ++ [LEFT_BRACKET] ++ emptyInterior defaultWriter ++ [RIGHT_BRACKET]
    /\ indentCount w' = indentCount defaultWriter
    /\ containerContext w' = [afterValue (newContext None)].
Proof.
  apply (empty_container_bytes LIST LEFT_BRACKET RIGHT_BRACKET defaultWriter
           (newContext None) []); reflexivity.
Defined.

(** The second field of a STRUCT at the threshold: a comma and no line
    feed. *)
Lemma field_separator_at_threshold :
  let w := snd (run [openStruct; WriteFieldName "a"; writeInt "1"]
                  (newWriter 2 (Finite 1))) in
  run [openStruct; WriteFieldName "a"; writeInt "1"] (newWriter 2 (Finite 1))
  = (inr tt, w)
  /\ (exists rest,
        containerContext w
        = {| state := STRUCT_FIELD; clean := false;
             containerType := Some STRUCT |} :: rest)
  /\ outcome (writeFieldName "b" w) = inr tt
  /\ written (writeFieldName "b" w) = lines ["{a: 1,b: "]
  /\ ~ In LINE_FEED (written (writeFieldName "b" w)).
Proof.
  cbv zeta. split; [|split; [|split; [|split]]];
    try (vm_compute; reflexivity).
  - eexists. vm_compute. reflexivity.
  - vm_compute. intros H.
    repeat (destruct H as [H|H]; [discriminate H|]). exact H.
Qed.

Lemma field_separator_bytes_witness :
  let w := snd (run [openStruct; WriteFieldName "a"; writeInt "1"]
                  defaultWriter) in
  exists w',
    writeFieldName "b" w = (inr tt, w')
    /\ writeable w' = lines ["{"; "  a: 1,"; "  b: "].
Proof.
  cbv zeta.
  destruct (field_separator_bytes "b"
              (snd (run [openStruct; WriteFieldName "a"; writeInt "1"]
                      defaultWriter))
              {| state := STRUCT_FIELD; clean := false;
                 containerType := Some STRUCT |}
              [afterValue (newContext None)])
    as (w' & Hrun & Hout); try reflexivity.
  exists w'. split; [exact Hrun|]. rewrite Hout. vm_compute. reflexivity.
Defined.

(** Two top-level scalars with [indentSize = 0]: the output has a line
    feed. *)
Lemma compact_top_level_line_feed :
  outcome (run [writeInt "1"; writeInt "2"] (newWriter 0 Infinity)) = inr tt
  /\ written (run [writeInt "1"; writeInt "2"] (newWriter 0 Infinity))
     = lines ["1"; "2"]
  /\ In LINE_FEED
       (written (run [writeInt "1"; writeInt "2"] (newWriter 0 Infinity))).
Proof.
  repeat split; try (vm_compute; reflexivity).
  vm_compute. right. left. reflexivity.
Qed.

Lemma compact_output_witness :
  writeable (snd (run [openSexp; writeInt "1"; writeInt "2"; StepOut;
                       openList; writeInt "3"; StepOut]
                    (newWriter 0 Infinity)))
  = lines ["(1 2)"; "[3]"].
Proof.
  rewrite (proj1 (compact_output Infinity
             [openSexp; writeInt "1"; writeInt "2"; StepOut;
              openList; writeInt "3"; StepOut]
             (snd (run [openSexp; writeInt "1"; writeInt "2"; StepOut;
                        openList; writeInt "3"; StepOut]
                     (newWriter 0 Infinity)))
             ltac:(vm_compute; reflexivity)));
    vm_compute; reflexivity.
Defined.

Lemma threshold_degradation_witness :
  let w := snd (run [openList] (newWriter 2 (Finite 2))) in
  writeable (snd (step (writeInt "1") w))
  = writeable w ++ indentedBytes w (writeInt "1")
  /\ indentedBytes w (writeInt "1") = lines ["  1"].
Proof.
  cbv zeta. split; [|vm_compute; reflexivity].
  refine (proj2 (threshold_degradation 2 2 [openList]
                   (snd (run [openList] (newWriter 2 (Finite 2))))
                   (writeInt "1") _ _ _ _ _) _);
    try lia; try (vm_compute; reflexivity).
  vm_compute. split; reflexivity.
Defined.

Lemma top_level_separator_witness :
  let w := snd (run [writeInt "1"] defaultWriter) in
  writeable (snd (step (writeInt "2") w)) = lines ["1"; "2"].
Proof.
  cbv zeta.
  rewrite (proj1 (proj1 (top_level_separator (writeInt "2")
                           (snd (run [writeInt "1"] defaultWriter))
                           (afterValue (newContext None))
                           (snd (step (writeInt "2")
                                   (snd (run [writeInt "1"] defaultWriter))))
                           eq_refl eq_refl eq_refl))).
  vm_compute. reflexivity.
Defined.

Lemma writeFieldName_grammar_witness :
  writeFieldName "a" defaultWriter
  = (inl (Error "Cannot write field name outside of a struct"), defaultWriter).
Proof.
  refine (proj1 (writeFieldName_grammar "a" defaultWriter (newContext None) []
                   _) _); [reflexivity|discriminate].
Defined.

Lemma indentCount_invariant_witness :
  let w := snd (run [openList; openStruct; WriteFieldName "a"; openSexp]
                  (newWriter 2 (Finite 3))) in
  indentCount w = openShallow (Finite 3) (containerContext w)
  /\ indentCount w = 2.
Proof.
  cbv zeta. split; [|vm_compute; reflexivity].
  refine (proj1 (indentCount_invariant 2 (Finite 3)
                   [openList; openStruct; WriteFieldName "a"; openSexp]
                   _ _)).
  vm_compute. reflexivity.
Defined.

Lemma stepOut_failure_pops_frame_witness :
  stepOut defaultWriter
  = (inl (Error "Can't step out when not in a container"),
     set_containerContext [] defaultWriter).
Proof.
  refine (proj1 (stepOut_failure_pops_frame defaultWriter (newContext None) []
                   _) _); reflexivity.
Defined.

(** ** Failed calls and the stack *)

Section Failures.
Context {raw : RawSerializers}.








(** X3: on a stack [c :: rest], [stepOut] succeeds exactly when [c] is a
    LIST, a SEXP or a STRUCT that is not waiting for the value of an
    announced field; it then removes that one frame and ends the output
    with the closing delimiter of its type. *)
Theorem stepOut_succeeds_iff w c rest :
  containerContext w = c :: rest ->
  ((exists w', stepOut w = (inr tt, w'))
   <-> (exists ty b,
          containerType c = Some ty /\ closingDelimiter ty = Some b
          /\ (ty = STRUCT -> state c = STRUCT_FIELD)))
  /\ (forall w',
        stepOut w = (inr tt, w') ->
        containerContext w' = rest
        /\ depth w' = depth w - 1
        /\ exists ty b layout,
             containerType c = Some ty /\ closingDelimiter ty = Some b
             /\ writeable w' = writeable w ++ layout ++ [b]).
Proof.
  intros Hstk.
  assert (Hinv : forall w', stepOut w = (inr tt, w') ->
            exists ty b,
              containerType c = Some ty /\ closingDelimiter ty = Some b
              /\ isSTRUCT (Some ty) && isVALUE (state c) = false
              /\ w' = (let w0 := set_containerContext rest w in
                       emit [b]
                         (set_indentCount
                            (if ltb_num (depth w0)
                                  (num_pred (prettify_depth w))
                             then indentCount w - 1 else indentCount w)
                            (emit (closingLayoutBytes c w0) w0)))).
  { intros w' H.
    destruct (containerType c) as [ty|] eqn:Hct.
    2:{ erewrite stepOut_top in H by eassumption. discriminate. }
    destruct (isSTRUCT (Some ty) && isVALUE (state c)) eqn:Hg.
    { apply andb_prop in Hg as [Hs Hv].
      destruct ty; try discriminate Hs.
      destruct (state c) eqn:Hst; try discriminate Hv.
      erewrite stepOut_awaiting in H by eassumption. discriminate. }
    erewrite stepOut_eq in H by eassumption. cbv zeta in H.
    destruct (closingDelimiter ty) as [b|] eqn:Hb; [|discriminate].
    injection H as <-. exists ty, b. cbv zeta.
    repeat split; (reflexivity || assumption). }
  split; [split|].
  - intros [w' H]. destruct (Hinv w' H) as (ty & b & Hct & Hb & Hg & _).
    exists ty, b. repeat split; try assumption.
    intros ->. destruct (state c); [discriminate Hg|reflexivity].
  - intros (ty & b & Hct & Hb & Hs).
    erewrite stepOut_eq; try eassumption.
    + cbv zeta. rewrite Hb. eexists. reflexivity.
    + destruct ty; try reflexivity. now rewrite Hs.
  - intros w' H. destruct (Hinv w' H) as (ty & b & Hct & Hb & _ & ->).
    cbv zeta. exec. rewrite Hstk, depth_of_cons. repeat split.
    + lia.
    + exists ty, b. eexists. repeat split; try assumption.
      rewrite <- app_assoc. reflexivity.
Qed.

(** X4: [writeContainer] accepts a type that is not a container type, and
    the frame it pushes cannot be closed: the [stepOut] that follows throws
    "Unexpected container type" after it has removed the frame, leaving the
    enclosing frame marked as having a child and the indent counter at its
    old value. *)
Theorem scalar_typed_container_cannot_close type o w c rest :
  containerContext w = c :: rest ->
  closingDelimiter type = None ->
  exists w1 w2,
    writeContainer type o w = (inr tt, w1)
    /\ stepOut w1 = (inl (Error "Unexpected container type"), w2)
    /\ containerContext w2 = afterValue c :: rest
    /\ indentCount w2 = indentCount w.
Proof.
  intros Hstk Hb.
  destruct w as [out stk ann ic isz pd]. cbn in Hstk. subst stk.
  erewrite writeContainer_eq by reflexivity. exec.
  eexists. eexists. split; [reflexivity|].
  erewrite stepOut_eq with (ty := type);
    [ | reflexivity | reflexivity | destruct type; (reflexivity || discriminate) ].
  rewrite Hb. exec. rewrite !ltb_num_pred, !depth_of_cons.
  repeat split. cbn [indentCount]. destruct (ltb_num _ _); lia.
Qed.

Lemma step_depth o w w' :
  step o w = (inr tt, w') ->
  depth w' = depth w + opens [o] - closes [o].
Proof.
  revert o w w'.
  apply (step_inv (fun o w w' =>
    depth w' = depth w + opens [o] - closes [o]));
    cbv zeta; intros; exec;
    repeat match goal with
           | Hs : containerContext _ = _ :: _ |- _ => rewrite Hs
           end;
    rewrite ?(depth_of_cons _ (_ :: _)), ?depth_of_cons;
    unfold opens, closes; cbn; lia.
Qed.

(** X5: after a run of successful calls the depth is the depth before it
    plus the number of containers opened minus the number closed. *)
Theorem depth_counts_open_containers ops w w' :
  run ops w = (inr tt, w') ->
  depth w' = depth w + opens ops - closes ops.
Proof.
  revert w. induction ops as [|o ops IH]; intros w H.
  - cbn in H. injection H as <-. unfold opens, closes. cbn. lia.
  - apply run_cons in H as (w1 & H1 & H2).
    rewrite (IH _ H2), (step_depth _ _ _ H1).
    unfold opens, closes. cbn [filter].
    destruct o; cbn [List.length]; lia.
Qed.

End Failures.

(** ** Writers reached through the API *)

Section Reachable.
Context {raw : RawSerializers}.



Lemma wellNested_nonempty stk :
  wellNested stk = true -> exists c rest, stk = c :: rest.
Proof. destruct stk as [|c rest]; [discriminate|]. now exists c, rest. Qed.

Lemma step_error_message o w c rest e w' :
  containerContext w = c :: rest ->
  step o w = (inl e, w') ->
  exists msg, e = Error msg.
Proof.
  intros Hstk H.
  destruct o as [f|t|T t [v|] ser|t o| |a]; cbn [step] in H.
  - destruct (containerType c) as [[]|] eqn:Hct;
      try (erewrite writeFieldName_reject_type in H
             by (try eassumption; congruence);
           injection H as <- _; eexists; reflexivity).
    destruct (state c) eqn:Hst.
    + erewrite writeFieldName_reject_state in H
        by (try eassumption; congruence).
      injection H as <- _. eexists. reflexivity.
    + erewrite writeFieldName_eq in H by eassumption. discriminate.
  - erewrite writeNull_eq in H by eassumption. discriminate.
  - destruct (state c) eqn:Hst.
    + erewrite serializeValue_eq in H by eassumption. discriminate.
    + erewrite serializeValue_reject in H by eassumption.
      injection H as <- _. eexists. reflexivity.
  - destruct (state c) eqn:Hst.
    + erewrite serializeValue_null_eq, writeNull_eq in H by eassumption.
      discriminate.
    + erewrite serializeValue_reject in H by eassumption.
      injection H as <- _. eexists. reflexivity.
  - erewrite writeContainer_eq in H by eassumption. discriminate.
  - destruct (containerType c) as [ty|] eqn:Hct.
    2:{ erewrite stepOut_top in H by eassumption.
        injection H as <- _. eexists. reflexivity. }
    destruct (isSTRUCT (Some ty) && isVALUE (state c)) eqn:Hg.
    { apply andb_prop in Hg as [Hs Hv].
      destruct ty; try discriminate Hs.
      destruct (state c) eqn:Hst; try discriminate Hv.
      erewrite stepOut_awaiting in H by eassumption.
      injection H as <- _. eexists. reflexivity. }
    erewrite stepOut_eq in H by eassumption. cbv zeta in H.
    destruct (closingDelimiter ty); [discriminate|].
    injection H as <- _. eexists. reflexivity.
  - unfold addAnnotation in H. exec_in H. discriminate.
Qed.

(** X6: a writer reached from a new one through successful calls always
    has a current container: its stack is the open containers over the
    top-level frame, which no successful call removes, and its depth is [0]
    or more.  So no call made on it reads a property of [undefined]: a call
    that throws throws an [Error] with a message, never a [TypeError]. *)
Theorem reachable_writer_has_current_container n threshold ops w :
  run ops (newWriter n threshold) = (inr tt, w) ->
  wellNested (containerContext w) = true
  /\ 0 <= depth w
  /\ (forall o e w', step o w = (inl e, w') -> exists msg, e = Error msg).
Proof.
  intros H.
  pose proof (run_wellNested _ _ _ H eq_refl) as Hwf.
  destruct (wellNested_nonempty _ Hwf) as (c & rest & Hstk).
  repeat split.
  - assumption.
  - unfold depth. rewrite Hstk, depth_of_cons. unfold depth_of. lia.
  - intros o e w' Hf. eapply step_error_message; eassumption.
Qed.


Lemma openShallow_closed threshold stk :
  wellNested stk = true ->
  openShallow threshold stk
  = match threshold with
    | Infinity => depth_of stk
    | Finite d => Z.max 0 (Z.min (depth_of stk) (d - 1))
    end.
Proof.
  induction stk as [|c rest IH]; [discriminate|].
  intros Hwf. destruct rest as [|c2 rest].
  - cbn [wellNested] in Hwf. cbn [openShallow].
    destruct (isContainer c); [discriminate|]. cbn [andb].
    rewrite depth_of_single. destruct threshold; lia.
  - assert (Hc : isContainer c = true)
      by (cbn [wellNested] in Hwf; now destruct (isContainer c)).
    rewrite wellNested_push in Hwf by assumption.
    cbn [openShallow] in *. rewrite Hc. cbn [andb].
    rewrite IH by assumption. rewrite (depth_of_cons c).
    pose proof (depth_of_cons c2 rest) as Hd.
    assert (0 <= depth_of rest + 1) by (unfold depth_of; lia).
    destruct threshold as [d|]; unfold ltb_num.
    + destruct (Z.ltb_spec (depth_of (c2 :: rest) + 1) d); lia.
    + lia.
Qed.

(** X9: on a writer reached from a new one through successful calls the
    indent counter is a function of the depth: the depth itself without a
    threshold, and with a threshold [d] the depth capped at [d - 1] (and at
    [0] from below); it is never negative and never above the depth. *)
Theorem indentCount_closed_form n threshold ops w :
  run ops (newWriter n threshold) = (inr tt, w) ->
  indentCount w
  = match threshold with
    | Infinity => depth w
    | Finite d => Z.max 0 (Z.min (depth w) (d - 1))
    end
  /\ 0 <= indentCount w <= depth w.
Proof.
  intros H.
  pose proof (run_counterInv _ _ _ H eq_refl) as Hc.
  destruct (run_config _ _ _ H) as [_ Hpd]. cbn in Hpd.
  unfold counterInv in Hc. rewrite Hpd in Hc.
  pose proof (run_wellNested _ _ _ H eq_refl) as Hwf.
  rewrite (openShallow_closed _ _ Hwf) in Hc.
  destruct (wellNested_nonempty _ Hwf) as (c & rest & Hstk).
  assert (0 <= depth w)
    by (unfold depth; rewrite Hstk; unfold depth_of; cbn [List.length]; lia).
  unfold depth in *. split; [assumption|].
  destruct threshold; lia.
Qed.


(** X10: once a null or a scalar has been written into a STRUCT, the
    STRUCT expects a field name again: a further scalar is rejected and
    leaves the writer as it is, and a field name is accepted and written
    after a comma. *)
Theorem value_awaits_field_name o w c rest w1 :
  containerContext w = c :: rest ->
  containerType c = Some STRUCT ->
  match o with
  | WriteNull _ | SerializeValue _ _ _ => True
  | _ => False
  end ->
  step o w = (inr tt, w1) ->
  containerContext w1
  = {| state := STRUCT_FIELD; clean := false; containerType := Some STRUCT |}
    :: rest
  /\ (forall T t (v : option T) ser,
        _serializeValue t v ser w1
        = (inl (Error "Expecting a struct field"), w1))
  /\ (forall g, exists w2 bs,
        writeFieldName g w1 = (inr tt, w2)
        /\ writeable w2 = writeable w1 ++ COMMA :: bs).
Proof.
  intros Hstk Hct Ho H.
  assert (Hw1 : containerContext w1
                = {| state := STRUCT_FIELD; clean := false;
                     containerType := Some STRUCT |} :: rest).
  { destruct o as [g|t|T t [v|] ser|t o| |a]; try contradiction;
      cbn [step] in H.
    - erewrite writeNull_eq in H by eassumption. injection H as <-.
      exec. unfold afterValue. now rewrite Hct.
    - destruct (state c) eqn:Hst;
        [|erewrite serializeValue_reject in H by eassumption; discriminate].
      erewrite serializeValue_eq in H by eassumption. injection H as <-.
      exec. unfold afterValue. now rewrite Hct.
    - destruct (state c) eqn:Hst;
        [|erewrite serializeValue_reject in H by eassumption; discriminate].
      erewrite serializeValue_null_eq, writeNull_eq in H by eassumption.
      injection H as <-. exec. unfold afterValue. now rewrite Hct. }
  repeat split.
  - assumption.
  - intros T t v ser. eapply serializeValue_reject; [exact Hw1|reflexivity].
  - intros g. eexists. eexists. split.
    + eapply writeFieldName_eq; [exact Hw1|reflexivity|reflexivity].
    + exec. cbn [app]. reflexivity.
Qed.

End Reachable.

(** ** Whole values without a depth threshold *)

Section Documents.
Context {raw : RawSerializers}.

Lemma run_app l1 l2 w :
  run (l1 ++ l2) w
  = match run l1 w with
    | (inl e, w') => (inl e, w')
    | (inr _, w') => run l2 w'
    end.
Proof.
  revert w. induction l1 as [|o l1 IH]; intros w; [reflexivity|].
  cbn [app run]. unfold bind.
  destruct (step o w) as [[e|[]] w1]; [reflexivity|apply IH].
Qed.

Lemma ltb_num_Infinity d : ltb_num d Infinity = true.
Proof. reflexivity. Qed.

Lemma num_pred_Infinity : num_pred Infinity = Infinity.
Proof. reflexivity. Qed.

Lemma depth_of_nested_eqb a b (l : list Context) :
  (depth_of (a :: b :: l) =? 0) = false.
Proof. apply Z.eqb_neq. unfold depth_of. cbn [List.length]. lia. Qed.

Lemma depth_of_nested_ltb a b (l : list Context) :
  (0 <? depth_of (a :: b :: l)) = true.
Proof. apply Z.ltb_lt. unfold depth_of. cbn [List.length]. lia. Qed.

Lemma annotationBytes_nil : annotationBytes [] = [].
Proof. reflexivity. Qed.

Lemma newLineBytes_Infinity out stk ann ic isz :
  newLineBytes (mkWriter out stk ann ic isz Infinity) = lineBreak isz.
Proof.
  unfold newLineBytes, lineBreak, prettyOn. exec.
  now rewrite ltb_num_Infinity, andb_true_r.
Qed.

Lemma indentBytes_Infinity out stk ann ic isz k :
  indentBytes (mkWriter out stk ann ic isz Infinity) k = indentOf isz k.
Proof.
  unfold indentBytes, indentOf, prettyOn. exec.
  now rewrite ltb_num_Infinity, andb_true_r.
Qed.

Lemma preamble_top out st cl ct ic isz :
  preambleBytes (mkWriter out [mkContext st cl ct] [] ic isz Infinity)
  = if cl then [] else [LINE_FEED].
Proof.
  unfold preambleBytes, separatorBytes, valueIndentBytes. exec.
  rewrite depth_of_single, annotationBytes_nil.
  change (0 =? 0) with true. change (0 <? 0) with false.
  destruct cl; reflexivity.
Qed.

Lemma preamble_sequence out st cl ct sep c' rest ic isz :
  (ct = LIST /\ sep = COMMA) \/ (ct = SEXP /\ sep = SPACE) ->
  preambleBytes
    (mkWriter out (mkContext st cl (Some ct) :: c' :: rest) [] ic isz Infinity)
  = (if cl then [] else sep :: lineBreak isz) ++ indentOf isz ic.
Proof.
  intros Hct. unfold preambleBytes, separatorBytes, valueIndentBytes. exec.
  rewrite depth_of_nested_eqb, depth_of_nested_ltb, annotationBytes_nil.
  rewrite newLineBytes_Infinity, indentBytes_Infinity, app_nil_r.
  destruct Hct as [[-> ->]|[-> ->]]; destruct cl; reflexivity.
Qed.

Lemma preamble_struct out st cl c' rest ic isz :
  preambleBytes
    (mkWriter out (mkContext st cl (Some STRUCT) :: c' :: rest) [] ic isz
       Infinity)
  = [].
Proof.
  unfold preambleBytes, separatorBytes, valueIndentBytes. exec.
  rewrite depth_of_nested_eqb, depth_of_nested_ltb, annotationBytes_nil.
  cbn [isSequence andb]. destruct cl; reflexivity.
Qed.

Lemma elements_run ct sep items :
  (ct = LIST /\ sep = COMMA) \/ (ct = SEXP /\ sep = SPACE) ->
  Forall valueWritten items ->
  forall out cl c' rest ic isz,
    run (flat_map writeValue items)
      (mkWriter out (mkContext VALUE cl (Some ct) :: c' :: rest) [] ic isz
         Infinity)
    = (inr tt,
       mkWriter
         (out ++ renderElements isz sep (render isz ic) ic cl items)
         (mkContext VALUE (cl && isNil items) (Some ct) :: c' :: rest) []
         ic isz Infinity).
Proof.
  intros Hct Hall. induction Hall as [|x items Hx _ IH];
    intros out cl c' rest ic isz.
  - cbn. now rewrite app_nil_r, andb_true_r.
  - cbn [flat_map renderElements isNil]. rewrite run_app.
    rewrite (Hx out (mkContext VALUE cl (Some ct)) (c' :: rest) [] ic isz
               eq_refl).
    rewrite (preamble_sequence _ _ _ _ sep) by assumption.
    replace (afterValue (mkContext VALUE cl (Some ct)))
      with (mkContext VALUE false (Some ct))
      by (destruct Hct as [[-> _]|[-> _]]; reflexivity).
    rewrite IH. rewrite andb_false_r. cbn [andb isNil].
    f_equal. f_equal. out_norm. reflexivity.
Qed.

Lemma fields_run fields :
  Forall (fun f => valueWritten (snd f)) fields ->
  forall out cl c' rest ic isz,
    run (flat_map (fun '(name, x) => WriteFieldName name :: writeValue x)
           fields)
      (mkWriter out (mkContext STRUCT_FIELD cl (Some STRUCT) :: c' :: rest) []
         ic isz Infinity)
    = (inr tt,
       mkWriter
         (out ++ renderFields isz (render isz ic) ic cl fields)
         (mkContext STRUCT_FIELD (cl && isNil fields) (Some STRUCT)
          :: c' :: rest) []
         ic isz Infinity).
Proof.
  intros Hall. induction Hall as [|[name x] fields Hx _ IH];
    intros out cl c' rest ic isz.
  - cbn. now rewrite app_nil_r, andb_true_r.
  - cbn [flat_map renderFields isNil snd] in *.
    cbn [app run step]. unfold bind at 1.
    erewrite writeFieldName_eq by reflexivity. exec.
    rewrite newLineBytes_Infinity, indentBytes_Infinity.
    rewrite run_app.
    rewrite (Hx _ (mkContext VALUE cl (Some STRUCT)) (c' :: rest) [] ic isz
               eq_refl).
    rewrite preamble_struct.
    change (afterValue (mkContext VALUE cl (Some STRUCT)))
      with (mkContext STRUCT_FIELD false (Some STRUCT)).
    rewrite IH. rewrite andb_false_r. cbn [andb].
    f_equal. f_equal. destruct cl; out_norm; reflexivity.
Qed.

Lemma closing_layout_Infinity st cl ct out stk ann ic isz :
  closingLayoutBytes (mkContext st cl ct)
    (mkWriter out stk ann ic isz Infinity)
  = (if cl then [] else lineBreak isz) ++ indentOf isz (ic - 1).
Proof.
  unfold closingLayoutBytes. exec.
  rewrite num_pred_Infinity, ltb_num_Infinity.
  now rewrite newLineBytes_Infinity, indentBytes_Infinity.
Qed.

Lemma writeValue_run v : valueWritten v.
Proof.
  induction v using value_induction; unfold valueWritten;
    intros out c rest ann ic isz Hst.
  - cbn [writeValue run step]. unfold bind.
    erewrite serializeValue_eq by (reflexivity || assumption).
    exec. out_norm. reflexivity.
  - cbn [writeValue run step]. unfold bind.
    erewrite writeNull_eq by reflexivity.
    exec. out_norm. reflexivity.
  - cbn [writeValue run step]. unfold openList. cbn [step]. unfold bind at 1.
    erewrite writeContainer_eq by reflexivity. exec.
    rewrite num_pred_Infinity, ltb_num_Infinity, newLineBytes_Infinity.
    rewrite run_app.
    rewrite (elements_run LIST COMMA) by (auto || assumption).
    cbn [run step]. unfold bind.
    erewrite stepOut_eq with (ty := LIST) by reflexivity. exec.
    rewrite num_pred_Infinity, ltb_num_Infinity.
    cbn [closingDelimiter]. exec.
    rewrite closing_layout_Infinity. cbn [render andb].
    unfold renderBody.
    replace (ic + 1 - 1) with ic by lia.
    f_equal. f_equal. destruct items; out_norm; reflexivity.
  - cbn [writeValue run step]. unfold openSexp. cbn [step]. unfold bind at 1.
    erewrite writeContainer_eq by reflexivity. exec.
    rewrite num_pred_Infinity, ltb_num_Infinity, newLineBytes_Infinity.
    rewrite run_app.
    rewrite (elements_run SEXP SPACE) by (auto || assumption).
    cbn [run step]. unfold bind.
    erewrite stepOut_eq with (ty := SEXP) by reflexivity. exec.
    rewrite num_pred_Infinity, ltb_num_Infinity.
    cbn [closingDelimiter]. exec.
    rewrite closing_layout_Infinity. cbn [render andb].
    unfold renderBody.
    replace (ic + 1 - 1) with ic by lia.
    f_equal. f_equal. destruct items; out_norm; reflexivity.
  - cbn [writeValue run step]. unfold openStruct. cbn [step]. unfold bind at 1.
    erewrite writeContainer_eq by reflexivity. exec.
    rewrite num_pred_Infinity, ltb_num_Infinity, newLineBytes_Infinity.
    rewrite run_app.
    rewrite fields_run by assumption.
    cbn [run step]. unfold bind.
    erewrite stepOut_eq with (ty := STRUCT) by reflexivity. exec.
    rewrite num_pred_Infinity, ltb_num_Infinity.
    cbn [closingDelimiter]. exec.
    rewrite closing_layout_Infinity. cbn [render andb].
    unfold renderBody.
    replace (ic + 1 - 1) with ic by lia.
    f_equal. f_equal. destruct fields; out_norm; reflexivity.
Qed.

Lemma stream_run values :
  forall out cl isz,
    run (flat_map writeValue values)
      (mkWriter out [mkContext VALUE cl None] [] 0 isz Infinity)
    = (inr tt,
       mkWriter (out ++ renderStream isz cl values)
         [mkContext VALUE (cl && isNil values) None] [] 0 isz Infinity).
Proof.
  induction values as [|x values IH]; intros out cl isz.
  - cbn. now rewrite app_nil_r, andb_true_r.
  - cbn [flat_map renderStream isNil]. rewrite run_app.
    rewrite (writeValue_run x out (mkContext VALUE cl None) [] [] 0 isz
               eq_refl).
    rewrite preamble_top.
    change (afterValue (mkContext VALUE cl None))
      with (mkContext VALUE false None).
    rewrite IH. rewrite andb_false_r.
    f_equal. f_equal. out_norm. reflexivity.
Qed.

(** X11: on a new writer without a depth threshold, writing a stream of
    values succeeds and writes their texts, one line feed between two
    top-level values: inside a container each child is on its own line,
    indented by its nesting level times the indent size, with the comma or
    the space of the container at the end of the line before; an empty
    container is its opening delimiter, a line break and its closing
    delimiter; with indent size [0] no line break or indentation is
    written inside a value.  The stack and the indent counter are back to
    their initial values. *)
Theorem stream_of_values_rendered n values :
  run (flat_map writeValue values) (newWriter n Infinity)
  = (inr tt,
     mkWriter (renderStream n true values)
       [mkContext VALUE (isNil values) None] [] 0 n Infinity).
Proof.
  unfold newWriter. change (newContext None) with (mkContext VALUE true None).
  now rewrite stream_run.
Qed.

(** X12: on a writer without a depth threshold, a whole value written
    where a value is accepted (the current frame is in state [VALUE])
    succeeds whatever the value is; the bytes written are the separator and
    indentation of the value followed by its text at the level of the
    indent counter; afterwards the current frame is marked as having a
    child (and, if it is a STRUCT, expects a field name), the frames below
    and the indent counter are as before, and no annotation is pending. *)
Theorem value_written_in_place v w c rest :
  containerContext w = c :: rest ->
  state c = VALUE ->
  prettify_depth w = Infinity ->
  exists w',
    run (writeValue v) w = (inr tt, w')
    /\ writeable w'
       = writeable w ++ preambleBytes w ++ render (indentSize w) (indentCount w) v
    /\ containerContext w' = afterValue c :: rest
    /\ indentCount w' = indentCount w
    /\ annotations w' = [].
Proof.
  intros Hstk Hst Hpd.
  destruct w as [out stk ann ic isz pd]. cbn in Hstk, Hpd. subst stk pd.
  rewrite (writeValue_run v out c rest ann ic isz Hst).
  eexists. split; [reflexivity|]. repeat split.
Qed.

End Documents.

(** ** Whole values under any configuration *)

Section Balanced.
Context {raw : RawSerializers}.

Lemma elements_balanced ct items :
  ct = LIST \/ ct = SEXP ->
  Forall valueBalanced items ->
  forall out cl c' rest ic isz pd,
  exists bs,
    run (flat_map writeValue items)
      (mkWriter out (mkContext VALUE cl (Some ct) :: c' :: rest) [] ic isz pd)
    = (inr tt,
       mkWriter (out ++ bs)
         (mkContext VALUE (cl && isNil items) (Some ct) :: c' :: rest) []
         ic isz pd).
Proof.
  intros Hct Hall. induction Hall as [|x items Hx _ IH];
    intros out cl c' rest ic isz pd.
  - exists []. cbn. now rewrite app_nil_r, andb_true_r.
  - cbn [flat_map isNil]. rewrite run_app.
    destruct (Hx out (mkContext VALUE cl (Some ct)) (c' :: rest) [] ic isz pd
                eq_refl) as [b1 ->].
    replace (afterValue (mkContext VALUE cl (Some ct)))
      with (mkContext VALUE false (Some ct))
      by (destruct Hct as [->| ->]; reflexivity).
    destruct (IH (out ++ b1) false c' rest ic isz pd) as [b2 ->].
    exists (b1 ++ b2). rewrite andb_false_r. cbn [andb].
    now rewrite app_assoc.
Qed.

Lemma fields_balanced fields :
  Forall (fun f => valueBalanced (snd f)) fields ->
  forall out cl c' rest ic isz pd,
  exists bs,
    run (flat_map (fun '(name, x) => WriteFieldName name :: writeValue x)
           fields)
      (mkWriter out (mkContext STRUCT_FIELD cl (Some STRUCT) :: c' :: rest) []
         ic isz pd)
    = (inr tt,
       mkWriter (out ++ bs)
         (mkContext STRUCT_FIELD (cl && isNil fields) (Some STRUCT)
          :: c' :: rest) []
         ic isz pd).
Proof.
  intros Hall. induction Hall as [|[name x] fields Hx _ IH];
    intros out cl c' rest ic isz pd.
  - exists []. cbn. now rewrite app_nil_r, andb_true_r.
  - cbn [flat_map isNil snd] in *.
    cbn [app run step]. unfold bind at 1.
    erewrite writeFieldName_eq by reflexivity. exec.
    rewrite run_app.
    match goal with
    | |- context [run (writeValue x) (mkWriter ?o _ _ _ _ _)] =>
        destruct (Hx o (mkContext VALUE cl (Some STRUCT)) (c' :: rest) [] ic
                    isz pd eq_refl) as [b1 ->]
    end.
    change (afterValue (mkContext VALUE cl (Some STRUCT)))
      with (mkContext STRUCT_FIELD false (Some STRUCT)).
    match goal with
    | |- context [run _ (mkWriter ?o _ _ _ _ _)] =>
        destruct (IH o false c' rest ic isz pd) as [b2 ->]
    end.
    rewrite andb_false_r. cbn [andb].
    eexists. f_equal. f_equal. rewrite <- !app_assoc. reflexivity.
Qed.

Lemma container_balanced ty o b children cl0 st0 out c rest ann ic isz pd :
  closingDelimiter ty = Some b ->
  st0 = match ty with STRUCT => STRUCT_FIELD | _ => VALUE end ->
  (forall out' ic',
     exists bs,
       run children
         (mkWriter out' (mkContext st0 true (Some ty) :: afterValue c :: rest)
            [] ic' isz pd)
       = (inr tt,
          mkWriter (out' ++ bs)
            (mkContext st0 cl0 (Some ty) :: afterValue c :: rest) []
            ic' isz pd)) ->
  exists bs,
    run (WriteContainer ty o :: children ++ [StepOut])
      (mkWriter out (c :: rest) ann ic isz pd)
    = (inr tt, mkWriter (out ++ bs) (afterValue c :: rest) [] ic isz pd).
Proof.
  intros Hb Hst0 Hchildren.
  cbn [run step]. unfold bind at 1.
  erewrite writeContainer_eq by reflexivity. exec.
  rewrite run_app.
  replace (match ty with STRUCT => STRUCT_FIELD | _ => VALUE end) with st0.
  match goal with
  | |- context [run children (mkWriter ?o _ _ ?i _ _)] =>
      destruct (Hchildren o i) as [b1 ->]
  end.
  cbn [run step]. unfold bind.
  erewrite stepOut_eq with (ty := ty);
    [ | reflexivity | reflexivity
      | subst st0; destruct ty; (reflexivity || discriminate) ].
  rewrite Hb. exec. rewrite !depth_of_cons.
  eexists. f_equal. f_equal.
  - rewrite <- !app_assoc. reflexivity.
  - destruct (ltb_num _ _); lia.
Qed.

Lemma writeValue_balanced v : valueBalanced v.
Proof.
  induction v using value_induction; unfold valueBalanced;
    intros out c rest ann ic isz pd Hst.
  - cbn [writeValue run step]. unfold bind.
    erewrite serializeValue_eq by (reflexivity || assumption).
    exec. eexists. reflexivity.
  - cbn [writeValue run step]. unfold bind.
    erewrite writeNull_eq by reflexivity.
    exec. eexists. reflexivity.
  - cbn [writeValue]. unfold openList.
    eapply (container_balanced LIST _ _ _ (isNil items) VALUE);
      [reflexivity|reflexivity|].
    intros out' ic'.
    apply (elements_balanced LIST items (or_introl eq_refl) H out' true).
  - cbn [writeValue]. unfold openSexp.
    eapply (container_balanced SEXP _ _ _ (isNil items) VALUE);
      [reflexivity|reflexivity|].
    intros out' ic'.
    apply (elements_balanced SEXP items (or_intror eq_refl) H out' true).
  - cbn [writeValue]. unfold openStruct.
    eapply (container_balanced STRUCT _ _ _ (isNil fields) STRUCT_FIELD);
      [reflexivity|reflexivity|].
    intros out' ic'.
    apply (fields_balanced fields H out' true).
Qed.

(** X13: under every indent size and depth threshold, a whole value
    written where a value is accepted succeeds whatever the value is, only
    appends to the output, and is balanced: afterwards the current frame is
    marked as having a child, and the frames below it, the depth and the
    indent counter are as before, with no annotation pending. *)
Theorem value_always_balanced v w c rest :
  containerContext w = c :: rest ->
  state c = VALUE ->
  exists w' bs,
    run (writeValue v) w = (inr tt, w')
    /\ writeable w' = writeable w ++ bs
    /\ containerContext w' = afterValue c :: rest
    /\ depth w' = depth w
    /\ indentCount w' = indentCount w
    /\ annotations w' = [].
Proof.
  intros Hstk Hst.
  destruct w as [out stk ann ic isz pd]. cbn in Hstk. subst stk.
  destruct (writeValue_balanced v out c rest ann ic isz pd Hst) as [bs ->].
  eexists. exists bs. split; [reflexivity|]. repeat split.
Qed.

Lemma compact_run_nonpositive d ops w w' :
  prettify_depth w = Finite d ->
  d <= 0 ->
  wellNested (containerContext w) = true ->
  run ops w = (inr tt, w') ->
  writeable w' = writeable w ++ compactRun ops w.
Proof.
  intros Hpd Hd. revert w Hpd. induction ops as [|o ops IH]; intros w Hpd Hwf H.
  - cbn in H. injection H as <-. cbn. now rewrite app_nil_r.
  - apply run_cons in H as (w1 & H1 & H2).
    cbn [compactRun]. rewrite H1. cbn [snd].
    rewrite (IH w1);
      [ | now rewrite (proj2 (step_config _ _ _ H1))
        | eapply step_wellNested; eassumption | assumption ].
    rewrite (step_compact _ _ _ H1).
    + now rewrite app_assoc.
    + unfold prettyOn. rewrite Hpd. unfold ltb_num.
      destruct (wellNested_nonempty _ Hwf) as (c & rest & Hstk).
      assert (0 <= depth w)
        by (unfold depth; rewrite Hstk; unfold depth_of;
            cbn [List.length]; lia).
      destruct (Z.ltb_spec (depth w) d); [lia|]. apply andb_false_r.
Qed.

(** X14: a depth threshold of [0] or less switches the pretty printing off
    whatever the indent size is: the output of a run of successful calls on
    a new writer is the payload of the calls with the mandatory separators
    only, as with indent size [0]. *)
Theorem nonpositive_threshold_is_compact n d ops w :
  d <= 0 ->
  run ops (newWriter n (Finite d)) = (inr tt, w) ->
  writeable w = compactRun ops (newWriter n (Finite d)).
Proof.
  intros Hd H.
  now rewrite (compact_run_nonpositive d ops (newWriter n (Finite d)) w).
Qed.

End Balanced.

(** ** The indent size changes white space only *)

Section Cosmetic.
Context {raw : RawSerializers}.

Lemma strip_app l1 l2 : strip (l1 ++ l2) = strip l1 ++ strip l2.
Proof. apply filter_app. Qed.

Lemma strip_lineBreak n : strip (lineBreak n) = [].
Proof. unfold lineBreak. destruct (0 <? n); reflexivity. Qed.

Lemma strip_spaces m : strip (repeat SPACE m) = [].
Proof.
  induction m as [|m IH]; [reflexivity|].
  change (repeat SPACE (S m)) with (SPACE :: repeat SPACE m).
  unfold strip in *. cbn [filter]. exact IH.
Qed.

Lemma strip_indentOf n k : strip (indentOf n k) = [].
Proof.
  unfold indentOf. destruct (0 <? n); [apply strip_spaces|reflexivity].
Qed.

Lemma strip_cons_lineBreak a n l :
  strip (a :: lineBreak n ++ l) = strip (a :: l).
Proof.
  change (a :: lineBreak n ++ l) with ([a] ++ lineBreak n ++ l).
  change (a :: l) with ([a] ++ l).
  now rewrite !strip_app, strip_lineBreak.
Qed.

Lemma strip_elements sep items :
  Forall sameStripped items ->
  forall n k first,
    strip (renderElements n sep (render n k) k first items)
    = strip (renderElements 0 sep (render 0 0) 0 first items).
Proof.
  intros Hall. induction Hall as [|x items Hx _ IH]; intros n k first.
  - reflexivity.
  - cbn [renderElements]. rewrite !strip_app, !strip_indentOf, (Hx n k), IH.
    destruct first; cbn [app]; [reflexivity|].
    f_equal. change (sep :: lineBreak n) with ([sep] ++ lineBreak n).
    change (sep :: lineBreak 0) with ([sep] ++ lineBreak 0).
    now rewrite !strip_app, !strip_lineBreak.
Qed.

Lemma strip_fields fields :
  Forall (fun f => sameStripped (snd f)) fields ->
  forall n k first,
    strip (renderFields n (render n k) k first fields)
    = strip (renderFields 0 (render 0 0) 0 first fields).
Proof.
  intros Hall. induction Hall as [|[name x] fields Hx _ IH]; intros n k first.
  - reflexivity.
  - cbn [renderFields snd] in *.
    rewrite !strip_app, !strip_indentOf, (Hx n k), IH.
    destruct first; cbn [app]; [reflexivity|].
    f_equal. change (COMMA :: lineBreak n) with ([COMMA] ++ lineBreak n).
    change (COMMA :: lineBreak 0) with ([COMMA] ++ lineBreak 0).
    now rewrite !strip_app, !strip_lineBreak.
Qed.

Lemma strip_body {A : Type} (children : list A) body n k :
  strip (renderBody n children body k) = strip body.
Proof.
  unfold renderBody. rewrite !strip_app, strip_lineBreak, strip_indentOf.
  destruct children; rewrite ?strip_lineBreak; cbn [strip filter app];
    now rewrite app_nil_r.
Qed.

Lemma strip_container a body b :
  strip (a :: body ++ [b]) = strip [a] ++ strip body ++ strip [b].
Proof.
  change (a :: body ++ [b]) with ([a] ++ body ++ [b]).
  now rewrite !strip_app.
Qed.

Lemma render_sameStripped v : sameStripped v.
Proof.
  induction v using value_induction; unfold sameStripped; intros n k.
  - reflexivity.
  - reflexivity.
  - cbn [render]. rewrite !strip_container, !strip_body.
    now rewrite (strip_elements COMMA items H n (k + 1) true),
      (strip_elements COMMA items H 0 (0 + 1) true).
  - cbn [render]. rewrite !strip_container, !strip_body.
    now rewrite (strip_elements SPACE items H n (k + 1) true),
      (strip_elements SPACE items H 0 (0 + 1) true).
  - cbn [render]. rewrite !strip_container, !strip_body.
    now rewrite (strip_fields fields H n (k + 1) true),
      (strip_fields fields H 0 (0 + 1) true).
Qed.

Lemma strip_stream n first values :
  strip (renderStream n first values) = strip (renderStream 0 first values).
Proof.
  revert first. induction values as [|x values IH]; intros first;
    [reflexivity|].
  cbn [renderStream].
  now rewrite !strip_app, (render_sameStripped x n 0), IH.
Qed.

(** X15: without a depth threshold, the indent size changes nothing but
    white space: the output of a stream of values under any indent size,
    once its line feeds and spaces are removed, is the output under indent
    size [0] with its line feeds and spaces removed. *)
Theorem indent_size_is_cosmetic n values :
  strip (written (run (flat_map writeValue values) (newWriter n Infinity)))
  = strip (written (run (flat_map writeValue values) (newWriter 0 Infinity))).
Proof.
  unfold newWriter, written.
  change (newContext None) with (mkContext VALUE true None).
  rewrite !stream_run. cbn [snd writeable app].
  apply strip_stream.
Qed.

End Cosmetic.

(** ** Instances *)


Lemma stepOut_succeeds_iff_witness :
  let w := snd (run [openList] defaultWriter) in
  containerContext (snd (stepOut w)) = [afterValue (newContext None)]
  /\ depth (snd (stepOut w)) = depth w - 1.
Proof.
  cbv zeta.
  pose proof (proj2 (stepOut_succeeds_iff
                       (snd (run [openList] defaultWriter))
                       (newContext (Some LIST))
                       [afterValue (newContext None)]
                       ltac:(vm_compute; reflexivity))
                (snd (stepOut (snd (run [openList] defaultWriter))))
                ltac:(vm_compute; reflexivity)) as (H1 & H2 & _).
  split; assumption.
Defined.

Lemma scalar_typed_container_cannot_close_witness :
  exists w1 w2,
    writeContainer INT LEFT_BRACKET defaultWriter = (inr tt, w1)
    /\ stepOut w1 = (inl (Error "Unexpected container type"), w2)
    /\ containerContext w2 = [afterValue (newContext None)]
    /\ indentCount w2 = indentCount defaultWriter.
Proof.
  apply (scalar_typed_container_cannot_close INT LEFT_BRACKET defaultWriter
           (newContext None) []); reflexivity.
Defined.

Lemma depth_counts_open_containers_witness :
  depth (snd (run [openList; openStruct; StepOut] defaultWriter)) = 0 + 2 - 1.
Proof.
  apply (depth_counts_open_containers [openList; openStruct; StepOut]
           defaultWriter).
  vm_compute. reflexivity.
Defined.

Lemma reachable_writer_has_current_container_witness :
  wellNested
    (containerContext (snd (run [openStruct; WriteFieldName "a"; openList]
                              defaultWriter))) = true.
Proof.
  apply (reachable_writer_has_current_container 2 Infinity
           [openStruct; WriteFieldName "a"; openList]).
  vm_compute. reflexivity.
Defined.


Lemma indentCount_closed_form_witness :
  indentCount (snd (run [openList; openList; openList]
                      (newWriter 2 (Finite 2))))
  = Z.max 0 (Z.min (depth (snd (run [openList; openList; openList]
                                  (newWriter 2 (Finite 2))))) (2 - 1)).
Proof.
  apply (indentCount_closed_form 2 (Finite 2) [openList; openList; openList]).
  vm_compute. reflexivity.
Defined.


Lemma value_awaits_field_name_witness :
  let w := snd (run [openStruct; WriteFieldName "a"] defaultWriter) in
  containerContext (snd (step (writeInt "1") w))
  = [{| state := STRUCT_FIELD; clean := false; containerType := Some STRUCT |};
     afterValue (newContext None)].
Proof.
  cbv zeta.
  apply (value_awaits_field_name (writeInt "1")
           (snd (run [openStruct; WriteFieldName "a"] defaultWriter))
           {| state := VALUE; clean := true; containerType := Some STRUCT |}
           [afterValue (newContext None)]).
  - vm_compute. reflexivity.
  - reflexivity.
  - exact I.
  - vm_compute. reflexivity.
Defined.

Lemma value_written_in_place_witness :
  exists w',
    run (writeValue sampleDocument) defaultWriter = (inr tt, w')
    /\ writeable w'
       = lines ["{"; "  a: ["; "    1,"; "    null.int"; "  ],";
                "  b: ("; "    x "; "    ["; "    ]"; "  )"; "}"].
Proof.
  destruct (value_written_in_place sampleDocument defaultWriter
              (newContext None) [])
    as (w' & Hrun & Hout & _); try reflexivity.
  exists w'. split; [exact Hrun|]. rewrite Hout. vm_compute. reflexivity.
Defined.

Lemma value_always_balanced_witness :
  exists w' bs,
    run (writeValue sampleDocument) (newWriter 2 (Finite 2)) = (inr tt, w')
    /\ writeable w' = writeable (newWriter 2 (Finite 2)) ++ bs
    /\ containerContext w' = [afterValue (newContext None)]
    /\ depth w' = depth (newWriter 2 (Finite 2))
    /\ indentCount w' = indentCount (newWriter 2 (Finite 2))
    /\ annotations w' = [].
Proof.
  apply (value_always_balanced sampleDocument (newWriter 2 (Finite 2))
           (newContext None) []); reflexivity.
Defined.

Lemma nonpositive_threshold_is_compact_witness :
  writeable (snd (run (writeValue sampleDocument) (newWriter 2 (Finite 0))))
  = lines ["{a: [1,null.int],b: (x [])}"].
Proof.
  rewrite (nonpositive_threshold_is_compact 2 0 (writeValue sampleDocument)
             (snd (run (writeValue sampleDocument) (newWriter 2 (Finite 0))))
             ltac:(lia) ltac:(vm_compute; reflexivity)).
  vm_compute. reflexivity.
Defined.
